(** * IPDR ingestion engine: mapping suggestion, mapping validation and the
      per-record transformer

    A shallow embedding of [src/services/ipdr.service.js],
    [src/services/ai.service.js], [src/config/schemaDefinition.js] and the
    decision logic of [src/controllers/ipdr.controller.js].

    Modelling conventions.
    - JavaScript objects used as dictionaries (column mappings, parsed CSV
      rows) are [gmap string _]; a property read of an absent key yields
      [Undefined].
    - Strings are [string]; case folding and the [\s] class are modelled on
      the ASCII range.
    - Numbers produced by [parseInt] are integers ([Z]) or NaN ([None]);
      scores and ratios are exact rationals ([Q]).  The comparisons the code
      makes ([> 0.7], [> 0.6], [< n * 0.6]) have the same outcome on doubles
      and on rationals for every string length and counter value that fits in
      memory, because the compared quotients have small denominators.
    - [Date.parse], [Date.prototype.toISOString], [Date.now] and
      [Math.random] belong to the platform; they are parameters of the
      development. *)

From Stdlib Require Import ZArith QArith Lia Bool.
From Stdlib Require Import Strings.String Strings.Ascii.
From stdpp Require Import gmap strings list fin_maps.

Local Open Scope string_scope.
Local Open Scope list_scope.

(** ** JavaScript values that occur in mappings and extracted rows *)

Inductive jsv : Type :=
| Undefined
| Null
| Str (s : string).

(** [ToBoolean]: [undefined], [null] and the empty string are falsy. *)
Definition truthy (v : jsv) : bool :=
  match v with
  | Str s => negb (String.eqb s "")
  | _ => false
  end.

Definition is_null (v : jsv) : bool :=
  match v with Null => true | _ => false end.

(** [v === 'lit'] for a string literal. *)
Definition str_is (v : jsv) (lit : string) : bool :=
  match v with Str s => String.eqb s lit | _ => false end.

(** [o[k]] on an object holding mapping entries. *)
Definition get (o : gmap string jsv) (k : string) : jsv :=
  default Undefined (o !! k).

(** [row[h]] on a parsed CSV row (every cell is a string). *)
Definition cell (row : gmap string string) (h : string) : jsv :=
  match row !! h with
  | Some s => Str s
  | None => Undefined
  end.

(** ** String primitives *)

Fixpoint string_map (f : ascii -> ascii) (s : string) : string :=
  match s with
  | EmptyString => EmptyString
  | String c s' => String (f c) (string_map f s')
  end.

Fixpoint string_filter (p : ascii -> bool) (s : string) : string :=
  match s with
  | EmptyString => EmptyString
  | String c s' => if p c then String c (string_filter p s') else string_filter p s'
  end.

Fixpoint string_exists (p : ascii -> bool) (s : string) : bool :=
  match s with
  | EmptyString => false
  | String c s' => p c || string_exists p s'
  end.

Definition lower_ascii (c : ascii) : ascii :=
  let n := N_of_ascii c in
  if ((65 <=? n) && (n <=? 90))%N then ascii_of_N (n + 32) else c.

(** [s.toLowerCase()] *)
Definition toLowerCase (s : string) : string := string_map lower_ascii s.

(** [s.includes(sub)] *)
Fixpoint includes (s sub : string) : bool :=
  String.prefix sub s ||
  match s with
  | EmptyString => false
  | String _ s' => includes s' sub
  end.

(** The class [\s] restricted to ASCII: TAB, LF, VT, FF, CR, SPACE. *)
Definition is_space (c : ascii) : bool :=
  let n := N_of_ascii c in
  (((9 <=? n) && (n <=? 13)) || (n =? 32))%N.

Definition comma : ascii := ","%char.
Definition dquote : ascii := ascii_of_N 34.
Definition newline : ascii := ascii_of_N 10.

(** ** SchemaCatalog ([schemaDefinition.js]) *)

Record SchemaField := {
  name : string;
  label : string;
  required : bool;
  description : string
}.

Definition schemaDefinition : list SchemaField :=
  [ {| name := "a_party_id"; label := "Subscriber ID"; required := true;
       description := "The unique ID for the user (e.g., MSISDN, UserID)." |};
    {| name := "start_time"; label := "Session Start Time"; required := true;
       description := "When the data session began." |};
    {| name := "end_time"; label := "Session End Time"; required := false;
       description := "When the data session ended." |};
    {| name := "duration_ms"; label := "Duration (ms)"; required := false;
       description := "The length of the session in milliseconds." |};
    {| name := "dst_ip"; label := "Destination IP"; required := true;
       description := "The B-Party's IP address." |};
    {| name := "dst_port"; label := "Destination Port"; required := true;
       description := "The B-Party's port." |};
    {| name := "nat_ip"; label := "Public/NAT IP"; required := false;
       description := "The user's public-facing IP address." |};
    {| name := "src_ip"; label := "Private/Source IP"; required := false;
       description := "The user's internal device IP." |};
    {| name := "bytes_up"; label := "Data Uploaded (Bytes)"; required := false;
       description := "Bytes sent from the user." |};
    {| name := "bytes_down"; label := "Data Downloaded (Bytes)"; required := false;
       description := "Bytes received by the user." |};
    {| name := "protocol"; label := "Protocol"; required := false;
       description := "e.g., TCP, UDP." |} ].

(** [Object.keys(schemaDefinition)] *)
Definition schemaKeys : list string := map name schemaDefinition.

(** [Object.keys(schemaDefinition).filter(f => schemaDefinition[f].required)] *)
Definition requiredFields : list string :=
  map name (filter (fun f => required f = true) schemaDefinition).

(** ** MappingValidator ([validateRequiredFields]) *)

Definition REQUIRED_FIELDS : list (string * string) :=
  [ ("a_party_id", "Subscriber identifier is absolutely required for IPDR analysis");
    ("src_ip", "Source IP is required to identify the subscriber's network endpoint");
    ("dst_ip", "Destination IP is required to identify what service was accessed");
    ("dst_port", "Destination port is required to identify the service type");
    ("start_time", "Session start time is required for temporal analysis") ].

(** [Object.keys(REQUIRED_FIELDS)] *)
Definition REQUIRED_KEYS : list string := map fst REQUIRED_FIELDS.

Definition IMPORTANT_OPTIONAL : list string := ["bytes_up"; "bytes_down"; "protocol"].

Record issue := {
  field : string;
  message : string;
  severity : string
}.

Record ValidationReport := {
  isValid : bool;
  errors : list issue;
  warnings : list issue;
  requiredFieldsCount : nat;
  mappedRequiredCount : nat
}.

(** The test [!mapping[f] || mapping[f] === null]. *)
Definition unmapped (mapping : gmap string jsv) (f : string) : bool :=
  negb (truthy (get mapping f)) || is_null (get mapping f).

Definition required_error (entry : string * string) : issue :=
  {| field := fst entry; message := snd entry; severity := "error" |}.

Definition optional_warning (f : string) : issue :=
  {| field := f;
     message := f +:+ " is not mapped - data volume/protocol analysis will be limited";
     severity := "warning" |}.

Definition session_warning (mapping : gmap string jsv) : list issue :=
  match get mapping "a_party_id" with
  | Str h =>
      if truthy (Str h) then
        let mappedHeader := toLowerCase h in
        if includes mappedHeader "session"
           && negb (includes mappedHeader "subscriber")
           && negb (includes mappedHeader "msisdn")
           && negb (includes mappedHeader "imsi")
        then [ {| field := "a_party_id";
                  message := "Mapped field appears to be session ID rather than subscriber ID - this may limit subscriber analysis";
                  severity := "warning" |} ]
        else []
      else []
  | _ => []
  end.

Definition validateRequiredFields (mapping : gmap string jsv)
    (fileHeaders : list string) : ValidationReport :=
  let errors :=
    map required_error
        (filter (fun e => unmapped mapping (fst e) = true) REQUIRED_FIELDS) in
  let warnings :=
    map optional_warning
        (filter (fun f => unmapped mapping f = true) IMPORTANT_OPTIONAL)
    ++ session_warning mapping in
  {| isValid := Nat.eqb (length errors) 0;
     errors := errors;
     warnings := warnings;
     requiredFieldsCount := length REQUIRED_KEYS;
     mappedRequiredCount :=
       length (filter (fun f => (truthy (get mapping f)
                                 && negb (is_null (get mapping f))) = true)
                      REQUIRED_KEYS) |}.

(** ** Numbers: [parseInt], [String(n)] and [toFixed(2)] *)

Definition digit_value (c : ascii) : option Z :=
  let n := Z.of_N (N_of_ascii c) in
  if ((48 <=? n) && (n <=? 57))%Z then Some (n - 48)%Z
  else if ((97 <=? n) && (n <=? 122))%Z then Some (n - 87)%Z
  else if ((65 <=? n) && (n <=? 90))%Z then Some (n - 55)%Z
  else None.

(** Longest prefix of radix-[R] digits, as a number; [None] when the prefix
    is empty. *)
Fixpoint parse_digits (R : Z) (s : string) (acc : option Z) : option Z :=
  match s with
  | EmptyString => acc
  | String c s' =>
      match digit_value c with
      | Some d =>
          if (d <? R)%Z
          then parse_digits R s' (Some (R * default 0%Z acc + d)%Z)
          else acc
      | None => acc
      end
  end.

Fixpoint skip_spaces (s : string) : string :=
  match s with
  | String c s' => if is_space c then skip_spaces s' else s
  | EmptyString => s
  end.

(** [parseInt(s, radix)]; [radix = 0] stands for an omitted radix.  The
    result is [None] for NaN. *)
Definition parseInt (radix : Z) (s : string) : option Z :=
  let s1 := skip_spaces s in
  let '(sign, s2) :=
    match s1 with
    | String c r =>
        if Ascii.eqb c "-" then ((-1)%Z, r)
        else if Ascii.eqb c "+" then (1%Z, r)
        else (1%Z, s1)
    | EmptyString => (1%Z, s1)
    end in
  let stripPrefix := (radix =? 0)%Z || (radix =? 16)%Z in
  let R := if (radix =? 0)%Z then 10%Z else radix in
  let '(R, s3) :=
    match s2 with
    | String c0 (String c1 r) =>
        if stripPrefix && Ascii.eqb c0 "0" && (Ascii.eqb c1 "x" || Ascii.eqb c1 "X")
        then (16%Z, r) else (R, s2)
    | _ => (R, s2)
    end in
  match parse_digits R s3 None with
  | Some n => Some (sign * n)%Z
  | None => None
  end.

Definition digit_char (d : Z) : ascii := ascii_of_N (Z.to_N (48 + d)).

Fixpoint digits_of (fuel : nat) (n : Z) (acc : string) : string :=
  match fuel with
  | O => acc
  | S k =>
      let acc' := String (digit_char (n mod 10)) acc in
      if (n <? 10)%Z then acc' else digits_of k (n / 10)%Z acc'
  end.

(** [String(n)] for an integer [n]: decimal digits with a leading minus
    sign for negative numbers. *)
Definition string_of_Z (n : Z) : string :=
  let a := Z.abs n in
  let body := digits_of (S (Z.to_nat (Z.log2 a))) a "" in
  if (n <? 0)%Z then String "-" body else body.

(** [x.toFixed(2)] for a non-negative rational [x]: the number of
    hundredths nearest to [x] (the larger one on a tie), printed with two
    decimals. *)
Definition hundredths (x : Q) : Z :=
  ((200 * Qnum x + Zpos (Qden x)) / (2 * Zpos (Qden x)))%Z.

Definition toFixed2 (x : Q) : string :=
  let n := hundredths x in
  string_of_Z (n / 100) +:+ "." +:+
  String (digit_char ((n mod 100) / 10)) (String (digit_char (n mod 10)) "").

(** ** Regular expressions (anchored, star-free) *)

Inductive re : Type :=
| Eps
| Cls (p : ascii -> bool)
| Cat (r1 r2 : re)
| Alt (r1 r2 : re).

Inductive nre : Type :=
| Fail
| Re (r : re).

Fixpoint nullable (r : re) : bool :=
  match r with
  | Eps => true
  | Cls _ => false
  | Cat r1 r2 => nullable r1 && nullable r2
  | Alt r1 r2 => nullable r1 || nullable r2
  end.

Definition nalt (a b : nre) : nre :=
  match a, b with
  | Fail, _ => b
  | _, Fail => a
  | Re x, Re y => Re (Alt x y)
  end.

Definition ncat (a : nre) (r : re) : nre :=
  match a with
  | Fail => Fail
  | Re x => Re (Cat x r)
  end.

(** Brzozowski derivative. *)
Fixpoint deriv (c : ascii) (r : re) : nre :=
  match r with
  | Eps => Fail
  | Cls p => if p c then Re Eps else Fail
  | Cat r1 r2 =>
      nalt (ncat (deriv c r1) r2) (if nullable r1 then deriv c r2 else Fail)
  | Alt r1 r2 => nalt (deriv c r1) (deriv c r2)
  end.

(** [/^r$/.test(s)] *)
Fixpoint re_test (r : re) (s : string) : bool :=
  match s with
  | EmptyString => nullable r
  | String c s' =>
      match deriv c r with
      | Fail => false
      | Re r' => re_test r' s'
      end
  end.

Definition Opt (r : re) : re := Alt r Eps.
Definition chr (c : ascii) : re := Cls (Ascii.eqb c).
Definition rng (lo hi : ascii) : re :=
  Cls (fun c => (N_of_ascii lo <=? N_of_ascii c)%N && (N_of_ascii c <=? N_of_ascii hi)%N).

(** [r{n}] *)
Fixpoint times (n : nat) (r : re) : re :=
  match n with
  | O => Eps
  | S k => Cat r (times k r)
  end.

(** [r{0,n}] *)
Fixpoint upto (n : nat) (r : re) : re :=
  match n with
  | O => Eps
  | S k => Opt (Cat r (upto k r))
  end.

Definition digit : re := rng "0" "9".
Definition hexdigit : re := Alt digit (Alt (rng "a" "f") (rng "A" "F")).

(** [(?:25[0-5]|2[0-4][0-9]|[01]?[0-9][0-9]?)] *)
Definition octet : re :=
  Alt (Cat (chr "2") (Cat (chr "5") (rng "0" "5")))
      (Alt (Cat (chr "2") (Cat (rng "0" "4") digit))
           (Cat (Opt (rng "0" "1")) (Cat digit (Opt digit)))).

Definition ipv4Regex : re := Cat (times 3 (Cat octet (chr "."))) octet.

(** [(?:[0-9a-fA-F]{1,4}:){7}[0-9a-fA-F]{1,4}] *)
Definition hextet : re := Cat hexdigit (upto 3 hexdigit).
Definition ipv6Regex : re := Cat (times 7 (Cat hextet (chr ":"))) hextet.

Definition _isValidIP (ip : string) : bool :=
  re_test ipv4Regex ip || re_test ipv6Regex ip || includes ip ":".

(** ** Exceptions *)

Inductive exn : Type :=
| RangeError (msg : string)
| Error (msg : string).

Inductive result (A : Type) : Type :=
| Ok (a : A)
| Throw (e : exn).
Arguments Ok {A} a.
Arguments Throw {A} e.

#[global] Instance result_ret : MRet result := fun A a => Ok a.
#[global] Instance result_bind : MBind result := fun A B k m =>
  match m with
  | Ok a => k a
  | Throw e => Throw e
  end.

(** ** The platform *)

(** [Date_parse s] is the time value of [Date.parse(s)] (and of
    [new Date(s).getTime()]), [None] for NaN; [Date_toISOString t] and
    [Date_toString t] are [new Date(t).toISOString()] and
    [new Date(t).toString()] for a valid time value [t]. *)
Record platform := {
  Date_parse : string -> option Z;
  Date_toISOString : Z -> string;
  Date_toString : Z -> string
}.

(** What one call of the per-row operation reads from its surroundings:
    [Date.now()] and [Math.random().toString(36).substr(2, 9)]. *)
Record ambient := {
  Date_now : Z;
  Math_random_suffix : string
}.

(** ** Values of a canonical record *)

Inductive value : Type :=
| VNull
| VUndefined
| VNum (n : option Z)
| VStr (s : string)
| VDate (t : option Z).

Definition of_jsv (v : jsv) : value :=
  match v with
  | Undefined => VUndefined
  | Null => VNull
  | Str s => VStr s
  end.

(** [isNaN(n)] *)
Definition isNaN (n : option Z) : bool :=
  match n with None => true | Some _ => false end.

(** [String(v)] *)
Definition ToString (P : platform) (v : value) : string :=
  match v with
  | VNull => "null"
  | VUndefined => "undefined"
  | VNum None => "NaN"
  | VNum (Some n) => string_of_Z n
  | VStr s => s
  | VDate None => "Invalid Date"
  | VDate (Some t) => Date_toString P t
  end.

Module MV.
(** The object built by [_extractMappedValues]. *)
Record t := {
  a_party_id : jsv;
  start_time : jsv;
  end_time : jsv;
  duration_ms : jsv;
  src_ip : jsv;
  src_port : jsv;
  nat_ip : jsv;
  nat_port : jsv;
  dst_ip : jsv;
  dst_port : jsv;
  protocol : jsv;
  bytes_up : jsv;
  bytes_down : jsv
}.

(** [mappedValues[field]] *)
Definition lookup (mv : t) (f : string) : jsv :=
  if String.eqb f "a_party_id" then a_party_id mv
  else if String.eqb f "start_time" then start_time mv
  else if String.eqb f "end_time" then end_time mv
  else if String.eqb f "duration_ms" then duration_ms mv
  else if String.eqb f "src_ip" then src_ip mv
  else if String.eqb f "src_port" then src_port mv
  else if String.eqb f "nat_ip" then nat_ip mv
  else if String.eqb f "nat_port" then nat_port mv
  else if String.eqb f "dst_ip" then dst_ip mv
  else if String.eqb f "dst_port" then dst_port mv
  else if String.eqb f "protocol" then protocol mv
  else if String.eqb f "bytes_up" then bytes_up mv
  else if String.eqb f "bytes_down" then bytes_down mv
  else Undefined.
End MV.

Module CR.
(** The object built by [_processRecord]. *)
Record t := {
  a_party_id : value;
  start_time : value;
  end_time : value;
  duration_ms : value;
  src_ip : value;
  src_port : value;
  nat_ip : value;
  nat_port : value;
  dst_ip : value;
  dst_port : value;
  protocol : value;
  service_label : value;
  bytes_up : value;
  bytes_down : value
}.
End CR.

(** ** RecordTransformer ([IPDRProcessor]) *)

Record diagnostic := {
  diag_record : nat;
  diag_errors : list string;
  diag_rawRecord : gmap string string
}.

Record IPDRProcessor := {
  mapping : gmap string jsv;
  recordCount : nat;
  errorCount : nat;
  validationErrors : list diagnostic
}.

(** [new IPDRProcessor(confirmedMapping)] *)
Definition new_IPDRProcessor (confirmedMapping : gmap string jsv) : IPDRProcessor :=
  {| mapping := confirmedMapping; recordCount := 0; errorCount := 0;
     validationErrors := [] |}.

(** [this.mapping.f ? rawRecord[this.mapping.f] : null] *)
Definition extract (m : gmap string jsv) (rawRecord : gmap string string)
    (f : string) : jsv :=
  match get m f with
  | Str h => if truthy (Str h) then cell rawRecord h else Null
  | _ => Null
  end.

Definition _extractMappedValues (m : gmap string jsv)
    (rawRecord : gmap string string) : MV.t :=
  {| MV.a_party_id := extract m rawRecord "a_party_id";
     MV.start_time := extract m rawRecord "start_time";
     MV.end_time := extract m rawRecord "end_time";
     MV.duration_ms := extract m rawRecord "duration_ms";
     MV.src_ip := extract m rawRecord "src_ip";
     MV.src_port := extract m rawRecord "src_port";
     MV.nat_ip := extract m rawRecord "nat_ip";
     MV.nat_port := extract m rawRecord "nat_port";
     MV.dst_ip := extract m rawRecord "dst_ip";
     MV.dst_port := extract m rawRecord "dst_port";
     MV.protocol := extract m rawRecord "protocol";
     MV.bytes_up := extract m rawRecord "bytes_up";
     MV.bytes_down := extract m rawRecord "bytes_down" |}.

Record RecordValidation := {
  rv_isValid : bool;
  rv_errors : list string
}.

(** [!value || value === '' || value === 'null' || value === 'NULL'] *)
Definition missing_value (v : jsv) : bool :=
  negb (truthy v) || str_is v "" || str_is v "null" || str_is v "NULL".

Definition missing_message (entry : string * string) : string :=
  "Missing required field: " +:+ fst entry +:+ " (" +:+ snd entry +:+ ")".

(** [mv.start_time && isNaN(Date.parse(mv.start_time))] *)
Definition bad_start_time (P : platform) (mv : MV.t) : bool :=
  match MV.start_time mv with
  | Str s => truthy (Str s) && isNaN (Date_parse P s)
  | _ => false
  end.

(** [mv.dst_port && (isNaN(parseInt(mv.dst_port)) || parseInt(mv.dst_port) < 1)] *)
Definition bad_dst_port (mv : MV.t) : bool :=
  match MV.dst_port mv with
  | Str s =>
      truthy (Str s) &&
      match parseInt 0 s with
      | None => true
      | Some n => (n <? 1)%Z
      end
  | _ => false
  end.

(** [v && !this._isValidIP(v)] *)
Definition bad_ip (v : jsv) : bool :=
  match v with
  | Str s => truthy (Str s) && negb (_isValidIP s)
  | _ => false
  end.

Definition _validateRecord (P : platform) (mv : MV.t)
    (rawRecord : gmap string string) : RecordValidation :=
  let errors :=
    map missing_message
        (filter (fun e => missing_value (MV.lookup mv (fst e)) = true) REQUIRED_FIELDS)
    ++ (if bad_start_time P mv then ["Invalid start_time format"] else [])
    ++ (if bad_dst_port mv then ["Invalid dst_port - must be a positive number"] else [])
    ++ (if bad_ip (MV.src_ip mv) then ["Invalid src_ip format"] else [])
    ++ (if bad_ip (MV.dst_ip mv) then ["Invalid dst_ip format"] else []) in
  {| rv_isValid := Nat.eqb (length errors) 0; rv_errors := errors |}.

(** [ToBoolean] on record values; objects (dates) are always truthy. *)
Definition value_truthy (v : value) : bool :=
  match v with
  | VNull | VUndefined => false
  | VNum None => false
  | VNum (Some n) => negb (n =? 0)%Z
  | VStr s => negb (String.eqb s "")
  | VDate _ => true
  end.

(** [parseInt(v, radix)] on an extracted value. *)
Definition parseInt_of (P : platform) (radix : Z) (v : value) : option Z :=
  parseInt radix (ToString P v).

(** [d.getTime()] *)
Definition getTime (v : value) : option Z :=
  match v with VDate t => t | _ => None end.

(** Arithmetic on numbers with NaN. *)
Definition num_lt (a : option Z) (b : Z) : bool :=
  match a with Some x => (x <? b)%Z | None => false end.
Definition num_mul (a : option Z) (b : Z) : option Z :=
  match a with Some x => Some (x * b)%Z | None => None end.
Definition num_sub (a b : option Z) : option Z :=
  match a, b with Some x, Some y => Some (x - y)%Z | _, _ => None end.

Definition portMap : list (Z * string) :=
  [ (80, "HTTP/WEB"); (443, "HTTPS/WEB"); (53, "DNS"); (22, "SSH"); (21, "FTP");
    (25, "SMTP"); (110, "POP3"); (143, "IMAP"); (993, "IMAPS"); (995, "POP3S");
    (3306, "MySQL"); (5432, "PostgreSQL"); (6379, "Redis"); (27017, "MongoDB");
    (8080, "HTTP-ALT"); (8443, "HTTPS-ALT"); (1194, "OpenVPN"); (1723, "PPTP");
    (5060, "SIP") ]%Z.

Fixpoint assoc (k : Z) (l : list (Z * string)) : option string :=
  match l with
  | [] => None
  | (k', v) :: l' => if (k =? k')%Z then Some v else assoc k l'
  end.

Definition getServiceLabel (P : platform) (port : value) : string :=
  match parseInt_of P 10 port with
  | None => "UNKNOWN"
  | Some portNum => default "OTHER" (assoc portNum portMap)
  end.

(** [a || b] on strings held in extracted values. *)
Definition or_else (v : jsv) (d : string) : string :=
  match v with
  | Str s => if truthy (Str s) then s else d
  | _ => d
  end.

(** [generateSessionIdentifier({start_time, src_ip})], where [start_time]
    is the Date object built by [_processRecord]. *)
Definition generateSessionIdentifier (P : platform) (amb : ambient)
    (start_time : value) (src_ip : jsv) : string :=
  let timestamp :=
    if value_truthy start_time then VNum (getTime start_time)
    else VNum (Some (Date_now amb)) in
  let srcInfo := or_else src_ip "unknown" in
  srcInfo +:+ "_" +:+ ToString P timestamp +:+ "_" +:+ Math_random_suffix amb.

(** [v ? parseInt(v, 10) : dflt] *)
Definition int_or (P : platform) (v : jsv) (dflt : value) : value :=
  if truthy v then VNum (parseInt_of P 10 (of_jsv v)) else dflt.

Definition upper_ascii (c : ascii) : ascii :=
  let n := N_of_ascii c in
  if ((97 <=? n) && (n <=? 122))%N then ascii_of_N (n - 32) else c.

(** [s.toUpperCase()] *)
Definition toUpperCase (s : string) : string := string_map upper_ascii s.

Definition _processRecord (P : platform) (amb : ambient) (mv : MV.t)
    (rawRecord : gmap string string) : CR.t :=
  let startTime :=
    match MV.start_time mv with
    | Str s => if truthy (Str s) then VDate (Date_parse P s)
               else VDate (Some (Date_now amb))
    | _ => VDate (Some (Date_now amb))
    end in
  let endTime :=
    match MV.end_time mv with
    | Str s => if truthy (Str s) then VDate (Date_parse P s) else VNull
    | _ => VNull
    end in
  let dstPort := int_or P (MV.dst_port mv) VNull in
  let duration :=
    if truthy (MV.duration_ms mv) then
      let duration := parseInt_of P 10 (of_jsv (MV.duration_ms mv)) in
      if num_lt duration 1000000 then VNum (num_mul duration 1000)
      else VNum duration
    else if value_truthy startTime && value_truthy endTime then
      VNum (num_sub (getTime endTime) (getTime startTime))
    else VNull in
  {| CR.a_party_id :=
       VStr (or_else (MV.a_party_id mv)
                     (generateSessionIdentifier P amb startTime (MV.src_ip mv)));
     CR.start_time := startTime;
     CR.end_time := endTime;
     CR.duration_ms := duration;
     CR.src_ip := of_jsv (MV.src_ip mv);
     CR.src_port := int_or P (MV.src_port mv) VNull;
     CR.nat_ip := of_jsv (MV.nat_ip mv);
     CR.nat_port := int_or P (MV.nat_port mv) VNull;
     CR.dst_ip := of_jsv (MV.dst_ip mv);
     CR.dst_port := dstPort;
     CR.protocol := VStr (toUpperCase (or_else (MV.protocol mv) "TCP"));
     CR.service_label := VStr (getServiceLabel P dstPort);
     CR.bytes_up := int_or P (MV.bytes_up mv) (VNum (Some 0%Z));
     CR.bytes_down := int_or P (MV.bytes_down mv) (VNum (Some 0%Z)) |}.

(** ** CanonicalEncoder ([_recordToCsv]) *)

Definition dq : string := String dquote EmptyString.
Definition nl : string := String newline EmptyString.

(** The global replace of the encoder: every [dquote] character becomes
    two. *)
Fixpoint double_quotes (s : string) : string :=
  match s with
  | EmptyString => EmptyString
  | String c s' =>
      if Ascii.eqb c dquote then String dquote (String dquote (double_quotes s'))
      else String c (double_quotes s')
  end.

Definition needs_quoting (strValue : string) : bool :=
  includes strValue "," || includes strValue dq || includes strValue nl.

Definition quoted (strValue : string) : string :=
  dq +:+ double_quotes strValue +:+ dq.

Definition toCsv (P : platform) (v : value) : result string :=
  match v with
  | VNull | VUndefined | VNum None => Ok ""
  | VDate (Some t) => Ok (Date_toISOString P t)
  | VDate None => Throw (RangeError "Invalid time value")
  | _ =>
      let strValue := ToString P v in
      if needs_quoting strValue then Ok (quoted strValue) else Ok strValue
  end.

Definition csv_columns (r : CR.t) : list value :=
  [ CR.a_party_id r; CR.start_time r; CR.end_time r; CR.duration_ms r;
    CR.nat_ip r; CR.nat_port r; CR.src_ip r; CR.src_port r;
    CR.dst_ip r; CR.dst_port r; CR.protocol r; CR.service_label r;
    CR.bytes_up r; CR.bytes_down r ].

(** [parts.join(sep)] *)
Fixpoint join (sep : string) (parts : list string) : string :=
  match parts with
  | [] => ""
  | [x] => x
  | x :: rest => x +:+ sep +:+ join sep rest
  end.

Definition _recordToCsv (P : platform) (r : CR.t) : result string :=
  fields ← mapM (toCsv P) (csv_columns r);
  Ok (join "," fields +:+ nl).

(** ** The per-row operation *)

Definition reject (st : IPDRProcessor) (errs : list string)
    (rawRecord : gmap string string) : IPDRProcessor :=
  {| mapping := mapping st;
     recordCount := recordCount st;
     errorCount := S (errorCount st);
     validationErrors :=
       validationErrors st ++
       [ {| diag_record := recordCount st + 1; diag_errors := errs;
            diag_rawRecord := rawRecord |} ] |}.

Definition accept (st : IPDRProcessor) : IPDRProcessor :=
  {| mapping := mapping st;
     recordCount := S (recordCount st);
     errorCount := errorCount st;
     validationErrors := validationErrors st |}.

Definition count_failure (st : IPDRProcessor) : IPDRProcessor :=
  {| mapping := mapping st;
     recordCount := recordCount st;
     errorCount := S (errorCount st);
     validationErrors := validationErrors st |}.

(** The body of the [try] block: the new object state and the chunks
    handed to [this.push]. *)
Definition transform_try (P : platform) (amb : ambient) (st : IPDRProcessor)
    (rawRecord : gmap string string) : result (IPDRProcessor * list string) :=
  let mappedValues := _extractMappedValues (mapping st) rawRecord in
  let validation := _validateRecord P mappedValues rawRecord in
  if negb (rv_isValid validation) then
    Ok (reject st (rv_errors validation) rawRecord, [])
  else
    let cleanRecord := _processRecord P amb mappedValues rawRecord in
    csvLine ← _recordToCsv P cleanRecord;
    Ok (accept st, [csvLine]).

(** [_transform]: the [catch] clause counts the failure and goes on. *)
Definition _transform (P : platform) (amb : ambient) (st : IPDRProcessor)
    (rawRecord : gmap string string) : IPDRProcessor * list string :=
  match transform_try P amb st rawRecord with
  | Ok r => r
  | Throw _ => (count_failure st, [])
  end.

(** The transformer fed with the rows of a file, in order; every row comes
    with the clock and random readings of its call. *)
Fixpoint run (P : platform) (st : IPDRProcessor)
    (rows : list (ambient * gmap string string)) : IPDRProcessor * list string :=
  match rows with
  | [] => (st, [])
  | (amb, rawRecord) :: rest =>
      let '(st1, out1) := _transform P amb st rawRecord in
      let '(st2, out2) := run P st1 rest in
      (st2, out1 ++ out2)
  end.

(** ** Statistics ([getProcessingStats]) *)

Record ProcessingStats := {
  totalProcessed : nat;
  stats_errors : nat;
  successRate : value;
  stats_validationErrors : list diagnostic
}.

(** [(recordCount / (recordCount + errorCount)) * 100] *)
Definition rate (rc ec : nat) : Q :=
  ((Z.of_nat rc # Pos.of_nat (rc + ec)) * 100)%Q.

Definition getProcessingStats (st : IPDRProcessor) : ProcessingStats :=
  {| totalProcessed := recordCount st;
     stats_errors := errorCount st;
     successRate :=
       if (0 <? recordCount st)%nat
       then VStr (toFixed2 (rate (recordCount st) (errorCount st)))
       else VNum (Some 0%Z);
     stats_validationErrors := validationErrors st |}.

Record ProcessResult := {
  recordsProcessed : nat;
  res_errors : nat;
  res_successRate : value;
  res_validationErrors : list diagnostic
}.

(** [processFile] on a file whose rows are [rows], with a source and a
    sink that do not fail: the resolved value and the lines written to the
    sink. *)
Definition processFile (P : platform) (confirmedMapping : gmap string jsv)
    (rows : list (ambient * gmap string string))
    : result (ProcessResult * list string) :=
  let validation := validateRequiredFields confirmedMapping [] in
  if negb (isValid validation) then
    Throw (Error ("Cannot process file - required fields missing: " +:+
                  join ", " (map field (errors validation))))
  else
    let '(st, lines) := run P (new_IPDRProcessor confirmedMapping) rows in
    let stats := getProcessingStats st in
    Ok ({| recordsProcessed := totalProcessed stats;
           res_errors := stats_errors stats;
           res_successRate := successRate stats;
           res_validationErrors := stats_validationErrors stats |}, lines).

(** ** FuzzyMatcher ([ai.service.js]) *)

Definition FIELD_PATTERNS : list (string * list string) :=
  [ ("a_party_id",
     [ "msisdn"; "imsi"; "subscriber_id"; "user_id"; "calling_party"; "a_number";
       "mobile_number"; "phone_number"; "caller_id"; "subscriber"; "account_id";
       "customer_id" ]);
    ("src_ip",
     [ "a_party_ip"; "source_ip"; "private_ip"; "client_ip"; "user_ip";
       "internal_ip"; "local_ip"; "originating_ip" ]);
    ("dst_ip",
     [ "b_party_ip"; "destination_ip"; "dest_ip"; "server_ip"; "target_ip";
       "remote_ip"; "external_ip"; "called_ip" ]);
    ("start_time",
     [ "start_time"; "session_start"; "begin_time"; "call_start"; "timestamp";
       "start_timestamp"; "session_begin"; "connection_start" ]);
    ("end_time",
     [ "end_time"; "session_end"; "stop_time"; "call_end"; "finish_time";
       "end_timestamp"; "session_stop"; "connection_end" ]);
    ("dst_port",
     [ "b_party_port"; "destination_port"; "dest_port"; "server_port";
       "target_port"; "remote_port"; "called_port" ]);
    ("protocol", [ "protocol"; "l4_protocol"; "transport_protocol"; "ip_protocol" ]);
    ("bytes_up",
     [ "bytes_up"; "uplink_volume"; "upload_bytes"; "tx_bytes"; "sent_bytes";
       "outbound_bytes"; "upstream_bytes" ]);
    ("bytes_down",
     [ "bytes_down"; "downlink_volume"; "download_bytes"; "rx_bytes";
       "received_bytes"; "inbound_bytes"; "downstream_bytes";
       "bytes_transferred" ]) ].

(** [s.toLowerCase().replace(/[_\s-]/g, '')] *)
Definition normalize (s : string) : string :=
  string_filter
    (fun c => negb (Ascii.eqb c "_" || is_space c || Ascii.eqb c "-"))
    (toLowerCase s).

(** One row of the matrix of [levenshteinDistance]: the cells to the right
    of column 0, given the character [c2] of the row, the rest of the row
    above ([up]), the cell above-left ([diag]) and the cell to the left. *)
Fixpoint lev_cells (c2 : ascii) (str1 : string) (up : list nat)
    (diag left : nat) : list nat :=
  match str1, up with
  | String c1 str1', u :: up' =>
      let indicator := if Ascii.eqb c1 c2 then 0 else 1 in
      let cur := Nat.min (Nat.min (left + 1) (u + 1)) (diag + indicator) in
      cur :: lev_cells c2 str1' up' u cur
  | _, _ => []
  end.

(** The rows [1 ..] of the matrix, from the row above. *)
Fixpoint lev_rows (str1 str2 : string) (j : nat) (above : list nat) : list nat :=
  match str2 with
  | EmptyString => above
  | String c2 str2' =>
      let row := j :: lev_cells c2 str1 (tl above) (hd 0 above) j in
      lev_rows str1 str2' (S j) row
  end.

(** [matrix[str2.length][str1.length]] *)
Definition levenshteinDistance (str1 str2 : string) : nat :=
  List.last (lev_rows str1 str2 1 (seq 0 (S (String.length str1)))) 0.

Definition calculateSimilarity (str1 str2 : string) : Q :=
  let longer := if (String.length str2 <? String.length str1)%nat then str1 else str2 in
  let shorter := if (String.length str2 <? String.length str1)%nat then str2 else str1 in
  if (String.length longer =? 0)%nat then 1%Q
  else
    let editDistance := levenshteinDistance longer shorter in
    ((Z.of_nat (String.length longer) - Z.of_nat editDistance)
       # Pos.of_nat (String.length longer))%Q.

(** [a > b] on scores. *)
Definition Qgt_bool (a b : Q) : bool := negb (Qle_bool a b).

(** The loop of [fuzzyMatchField] over the aliases. *)
Fixpoint fuzzy_loop (headerLower : string) (patterns : list string) : Q :=
  match patterns with
  | [] => 0%Q
  | pattern :: rest =>
      let patternLower := normalize pattern in
      if String.eqb headerLower patternLower then 1%Q
      else if includes headerLower patternLower || includes patternLower headerLower
      then (8 # 10)%Q
      else
        let similarity := calculateSimilarity headerLower patternLower in
        if Qgt_bool similarity (7 # 10) then similarity
        else fuzzy_loop headerLower rest
  end.

Definition fuzzyMatchField (header : string) (patterns : list string) : Q :=
  fuzzy_loop (normalize header) patterns.

(** The score of one alias taken alone: what one pass of the loop body
    yields, 0 when it falls through. *)
Definition alias_score (header pattern : string) : Q :=
  fuzzyMatchField header [pattern].

(** The highest per-alias score, as the specification words it. *)
Definition highest_alias_score (header : string) (patterns : list string) : Q :=
  fold_right (fun p best => if Qgt_bool (alias_score header p) best
                            then alias_score header p else best)
             0%Q patterns.

(** The score of the first alias, in list order, that scores at all. *)
Fixpoint first_alias_score (header : string) (patterns : list string) : Q :=
  match patterns with
  | [] => 0%Q
  | p :: rest =>
      if Qgt_bool (alias_score header p) 0 then alias_score header p
      else first_alias_score header rest
  end.

(** The inner [forEach] of [createFallbackMapping]: the best header and its
    score for one canonical field. *)
Fixpoint best_header (patterns : list string) (fileHeaders : list string)
    (bestMatch : jsv) (bestScore : Q) : jsv * Q :=
  match fileHeaders with
  | [] => (bestMatch, bestScore)
  | header :: rest =>
      let score := fuzzyMatchField header patterns in
      if Qgt_bool score bestScore && Qgt_bool score (6 # 10)
      then best_header patterns rest (Str header) score
      else best_header patterns rest bestMatch bestScore
  end.

Definition createFallbackMapping (fileHeaders : list string) : gmap string jsv :=
  let init : gmap string jsv :=
    fold_left (fun m f => <[f := Null]> m) schemaKeys ∅ in
  fold_left
    (fun m entry =>
       let '(bestMatch, _) := best_header (snd entry) fileHeaders Null 0%Q in
       if truthy bestMatch then <[fst entry := bestMatch]> m else m)
    FIELD_PATTERNS init.

(** ** MappingSuggester ([getSuggestedMapping]) *)

(** [aiMapping[f] && aiMapping[f] !== null] *)
Definition mapped (m : gmap string jsv) (f : string) : bool :=
  truthy (get m f) && negb (is_null (get m f)).

(** [mapped.length < requiredFields.length * 0.6] *)
Definition poor_coverage (aiMapping : gmap string jsv) : bool :=
  let mappedRequiredFields := filter (fun f => mapped aiMapping f = true) requiredFields in
  Qgt_bool (inject_Z (Z.of_nat (length requiredFields)) * (6 # 10))%Q
           (inject_Z (Z.of_nat (length mappedRequiredFields))).

(** The merge loop over [Object.keys(fallbackMapping)]. *)
Definition enhance (aiMapping fallbackMapping : gmap string jsv) : gmap string jsv :=
  map_fold
    (fun f fv acc =>
       if negb (truthy (get acc f)) && truthy fv then <[f := fv]> acc else acc)
    aiMapping fallbackMapping.

(** [getSuggestedMapping], given what the collaborator call followed by
    [JSON.parse] produced: a parsed mapping object, or an exception. *)
Definition getSuggestedMapping (collaborator : result (gmap string jsv))
    (fileHeaders : list string) : gmap string jsv :=
  match collaborator with
  | Ok aiMapping =>
      if poor_coverage aiMapping
      then enhance aiMapping (createFallbackMapping fileHeaders)
      else aiMapping
  | Throw _ => createFallbackMapping fileHeaders
  end.

(** ** Reading side of the sink

    The sink ([COPY ... WITH (FORMAT csv)]) reads a field by the usual CSV
    rule: a field that opens with a double quote runs to the closing double
    quote, two double quotes in a row standing for one; any other field is
    taken as it is.  [None] stands for a malformed field. *)

Fixpoint unquote (s : string) : option string :=
  match s with
  | EmptyString => None
  | String c s' =>
      if Ascii.eqb c dquote then
        match s' with
        | EmptyString => Some EmptyString
        | String c' s'' =>
            if Ascii.eqb c' dquote then String dquote <$> unquote s'' else None
        end
      else String c <$> unquote s'
  end.

Definition csv_decode_field (s : string) : option string :=
  match s with
  | String c s' => if Ascii.eqb c dquote then unquote s' else Some s
  | EmptyString => Some EmptyString
  end.

(** ** Vocabulary of the properties *)

(** A mapping entry that is absent or [null]. *)
Definition missing_or_null (m : gmap string jsv) (f : string) : bool :=
  match get m f with
  | Undefined | Null => true
  | Str _ => false
  end.

(** The characters that force quoting. *)
Definition special (c : ascii) : bool :=
  Ascii.eqb c comma || Ascii.eqb c dquote || Ascii.eqb c newline.

(** The reasons for which data-level validation rejects a row. *)
Definition fails_validation (P : platform) (mv : MV.t) : Prop :=
  (exists f, In f REQUIRED_KEYS /\ missing_value (MV.lookup mv f) = true)
  \/ bad_start_time P mv = true
  \/ bad_dst_port mv = true
  \/ bad_ip (MV.src_ip mv) = true
  \/ bad_ip (MV.dst_ip mv) = true.

(** Whether [_validateRecord] rejects the row under mapping [m]. *)
Definition rejected (P : platform) (m : gmap string jsv)
    (rawRecord : gmap string string) : bool :=
  negb (rv_isValid (_validateRecord P (_extractMappedValues m rawRecord) rawRecord)).

Definition with_end_time (mv : MV.t) (v : jsv) : MV.t :=
  {| MV.a_party_id := MV.a_party_id mv;
     MV.start_time := MV.start_time mv;
     MV.end_time := v;
     MV.duration_ms := MV.duration_ms mv;
     MV.src_ip := MV.src_ip mv;
     MV.src_port := MV.src_port mv;
     MV.nat_ip := MV.nat_ip mv;
     MV.nat_port := MV.nat_port mv;
     MV.dst_ip := MV.dst_ip mv;
     MV.dst_port := MV.dst_port mv;
     MV.protocol := MV.protocol mv;
     MV.bytes_up := MV.bytes_up mv;
     MV.bytes_down := MV.bytes_down mv |}.

(** ** Sample data

    A platform that knows two timestamps in the ISO interchange format, on
    which every engine agrees, and treats every other string as not a date;
    it is used on rows that hold these strings or the word [garbage]. *)

Definition sample_platform : platform :=
  {| Date_parse := fun s =>
       if String.eqb s "2024-01-01T00:00:00.000Z" then Some 1704067200000%Z
       else if String.eqb s "2024-01-01T00:00:01.500Z" then Some 1704067201500%Z
       else None;
     Date_toISOString := fun t =>
       if (t =? 1704067200000)%Z then "2024-01-01T00:00:00.000Z"
       else if (t =? 1704067201500)%Z then "2024-01-01T00:00:01.500Z"
       else "";
     Date_toString := fun t =>
       if (t =? 1704067200000)%Z
       then "Mon Jan 01 2024 00:00:00 GMT+0000 (Coordinated Universal Time)"
       else if (t =? 1704067201500)%Z
       then "Mon Jan 01 2024 00:00:01 GMT+0000 (Coordinated Universal Time)"
       else "" |}.

Definition sample_ambient : ambient :=
  {| Date_now := 1704067300000%Z; Math_random_suffix := "k3j9x0q1z" |}.

Definition sample_mapping : gmap string jsv :=
  list_to_map
    [ ("a_party_id", Str "msisdn"); ("start_time", Str "start");
      ("end_time", Str "end"); ("duration_ms", Str "duration");
      ("src_ip", Str "source_ip"); ("dst_ip", Str "dest_ip");
      ("dst_port", Str "dest_port"); ("protocol", Str "proto") ].

Definition sample_row (dst_ip end_time duration : list (string * string))
    : gmap string string :=
  list_to_map
    ([ ("msisdn", "919876543210"); ("start", "2024-01-01T00:00:00.000Z");
       ("source_ip", "10.0.0.1"); ("dest_port", "443"); ("proto", "udp") ]
     ++ dst_ip ++ end_time ++ duration).

(** A well-formed row with an explicit duration of 500. *)
Definition good_row : gmap string string :=
  sample_row [("dest_ip", "93.184.216.34")] [] [("duration", "500")].

(** A row with start and end times and no duration. *)
Definition timed_row : gmap string string :=
  sample_row [("dest_ip", "93.184.216.34")]
             [("end", "2024-01-01T00:00:01.500Z")] [].

(** A row without a destination address. *)
Definition no_dst_row : gmap string string :=
  sample_row [] [] [("duration", "500")].

(** A row whose end time is not a date. *)
Definition bad_end_row : gmap string string :=
  sample_row [("dest_ip", "93.184.216.34")] [("end", "garbage")] [].

(** The mapping with the four fields the schema flags as required. *)
Definition schema_required_only : gmap string jsv :=
  list_to_map
    [ ("a_party_id", Str "msisdn"); ("start_time", Str "start");
      ("dst_ip", Str "dest_ip"); ("dst_port", Str "dest_port") ].

(** A mapping that gives every validated field a header, the subscriber
    field the empty one. *)
Definition empty_header_mapping : gmap string jsv :=
  list_to_map
    [ ("a_party_id", Str ""); ("src_ip", Str "source_ip");
      ("start_time", Str "start"); ("dst_ip", Str "dest_ip");
      ("dst_port", Str "dest_port") ].

(** A collaborator answer that maps two required fields. *)
Definition sample_aiMapping : gmap string jsv :=
  list_to_map
    [ ("a_party_id", Str "account"); ("start_time", Str "ts");
      ("dst_ip", Null); ("src_ip", Null) ].

Definition sample_headers : list string :=
  [ "account"; "ts"; "Source IP"; "dest_ip"; "Dest Port"; "MSISDN" ].

(** The field value of the encoding example, an a, a comma and a b in
    double quotes, and its encoded form. *)
Definition example_field : string := "a," +:+ dq +:+ "b" +:+ dq.
Definition example_field_encoded : string :=
  dq +:+ "a," +:+ dq +:+ dq +:+ "b" +:+ dq +:+ dq +:+ dq.


(** [FIELD_PATTERNS[f]] *)
Definition patterns_of (f : string) : list string :=
  default [] (snd <$> List.find (fun e => String.eqb (fst e) f) FIELD_PATTERNS).

(** One step of the outer loop of [createFallbackMapping]. *)
Definition fallback_step (fileHeaders : list string) (m : gmap string jsv)
    (entry : string * list string) : gmap string jsv :=
  let '(bestMatch, _) := best_header (snd entry) fileHeaders Null 0%Q in
  if truthy bestMatch then <[fst entry := bestMatch]> m else m.




Definition is_lower (c : ascii) : bool :=
  let n := N_of_ascii c in ((97 <=? n) && (n <=? 122))%N.

Definition is_digit (c : ascii) : bool :=
  let n := N_of_ascii c in ((48 <=? n) && (n <=? 57))%N.

(** The largest integer that a double holds exactly together with all
    smaller ones, [Number.MAX_SAFE_INTEGER]. *)
Definition MAX_SAFE_INTEGER : Z := 9007199254740991.


(** Cells of one matrix row, from column [i] on, that stay below the larger
    of their column and the row index [j]. *)
Fixpoint bounded (j i : nat) (l : list nat) : Prop :=
  match l with
  | [] => True
  | x :: l' => x <= Nat.max i j /\ bounded j (S i) l'
  end.

(** The language of a regular expression. *)
Inductive matches : re -> string -> Prop :=
| matches_eps : matches Eps EmptyString
| matches_cls (p : ascii -> bool) (c : ascii) :
    p c = true -> matches (Cls p) (String c EmptyString)
| matches_cat (r1 r2 : re) (s1 s2 : string) :
    matches r1 s1 -> matches r2 s2 -> matches (Cat r1 r2) (s1 +:+ s2)
| matches_alt_l (r1 r2 : re) (s : string) :
    matches r1 s -> matches (Alt r1 r2) s
| matches_alt_r (r1 r2 : re) (s : string) :
    matches r2 s -> matches (Alt r1 r2) s.

Fixpoint string_forall (p : ascii -> bool) (s : string) : bool :=
  match s with
  | EmptyString => true
  | String c s' => p c && string_forall p s'
  end.

(** One to three decimal digits that denote a number up to 255. *)
Definition octet_ok (o : string) : bool :=
  (1 <=? String.length o)%nat && (String.length o <=? 3)%nat
  && string_forall is_digit o
  && match parse_digits 10 o None with
     | Some n => (n <=? 255)%Z
     | None => false
     end.

Definition digit_chars : list ascii :=
  ["0"; "1"; "2"; "3"; "4"; "5"; "6"; "7"; "8"; "9"]%char.

Definition digit_strings1 : list string :=
  List.map (fun c => String c EmptyString) digit_chars.
Definition digit_strings2 : list string :=
  List.flat_map (fun c => List.map (String c) digit_strings1) digit_chars.
Definition digit_strings3 : list string :=
  List.flat_map (fun c => List.map (String c) digit_strings2) digit_chars.

(** All strings of one to three decimal digits. *)
Definition digit_strings : list string :=
  digit_strings1 ++ digit_strings2 ++ digit_strings3.

(** A dotted quad of four such numbers. *)
Definition dotted_quad (ip : string) : Prop :=
  exists a b c d,
    ip = a +:+ "." +:+ b +:+ "." +:+ c +:+ "." +:+ d
    /\ octet_ok a = true /\ octet_ok b = true
    /\ octet_ok c = true /\ octet_ok d = true.

(** ** Reading a whole line

    The reading side of the sink on one record: fields are separated by
    commas outside double quotes, the record ends at the first newline
    outside double quotes, and nothing may follow it. *)

Inductive csv_mode : Type := AtStart | InPlain | InQuoted | AfterQuote.

(** [prepend f fs] puts [f] in front of the first field of [fs]. *)
Definition prepend (f : string) (fs : list string) : list string :=
  match fs with
  | [] => []
  | x :: rest => (f +:+ x) :: rest
  end.

Definition csv_end (s' : string) : option (list string) :=
  match s' with
  | EmptyString => Some [EmptyString]
  | String _ _ => None
  end.

(** The fields of the line [s], the first one being what is left to read
    of the current field. *)
Fixpoint csv_decode (mode : csv_mode) (s : string) : option (list string) :=
  match s with
  | EmptyString => None
  | String c s' =>
      match mode with
      | AtStart =>
          if Ascii.eqb c dquote then csv_decode InQuoted s'
          else if Ascii.eqb c comma then cons EmptyString <$> csv_decode AtStart s'
          else if Ascii.eqb c newline then csv_end s'
          else prepend (String c EmptyString) <$> csv_decode InPlain s'
      | InPlain =>
          if Ascii.eqb c dquote then None
          else if Ascii.eqb c comma then cons EmptyString <$> csv_decode AtStart s'
          else if Ascii.eqb c newline then csv_end s'
          else prepend (String c EmptyString) <$> csv_decode InPlain s'
      | InQuoted =>
          if Ascii.eqb c dquote then csv_decode AfterQuote s'
          else prepend (String c EmptyString) <$> csv_decode InQuoted s'
      | AfterQuote =>
          if Ascii.eqb c dquote
          then prepend (String dquote EmptyString) <$> csv_decode InQuoted s'
          else if Ascii.eqb c comma then cons EmptyString <$> csv_decode AtStart s'
          else if Ascii.eqb c newline then csv_end s'
          else None
      end
  end.

Definition csv_decode_line (s : string) : option (list string) :=
  csv_decode AtStart s.

(** The text that a column value stands for in the output. *)
Definition column_text (P : platform) (v : value) : string :=
  match v with
  | VNull | VUndefined | VNum None | VDate None => EmptyString
  | VDate (Some t) => Date_toISOString P t
  | _ => ToString P v
  end.

(** The encoding of a text: quoted when it has to be. *)
Definition encode_text (s : string) : string :=
  if needs_quoting s then quoted s else s.

(** ** The controller ([processUpload]) and the analysis *)

Inductive response : Type :=
| BadRequest_missing_input
| NotFound_file
| BadRequest_required (errors : list issue)
| BadRequest_columns (errors : list string) (availableHeaders : list string)
| Accepted
| InternalError.

Definition column_error (schemaField fileField : string) : string :=
  "The column '" +:+ fileField +:+ "' (mapped to '" +:+ schemaField
  +:+ "') does not exist in the uploaded file.".

(** [fileHeaders.includes(h)] *)
Definition has_header (fileHeaders : list string) (h : string) : bool :=
  existsb (String.eqb h) fileHeaders.

(** The loop over [Object.entries(confirmedMapping)]. *)
Definition column_errors (entries : list (string * jsv))
    (fileHeaders : list string) : list string :=
  List.flat_map
    (fun entry =>
       match snd entry with
       | Str h =>
           if truthy (Str h) && negb (has_header fileHeaders h)
           then [column_error (fst entry) h] else []
       | _ => []
       end)
    entries.

(** The decision of [processUpload]: [filePath] and the entries of
    [confirmedMapping] come from the request body ([None] for an absent
    mapping), [file_exists] is the outcome of [fs.access] and [headers] what
    reading the header row of the file gave. *)
Definition processUpload (filePath : jsv) (confirmedMapping : option (list (string * jsv)))
    (file_exists : bool) (headers : result (list string)) : response :=
  match confirmedMapping with
  | None => BadRequest_missing_input
  | Some entries =>
      if negb (truthy filePath) then BadRequest_missing_input
      else if negb file_exists then NotFound_file
      else
        let mappingValidation := validateRequiredFields (list_to_map entries) [] in
        if negb (isValid mappingValidation)
        then BadRequest_required (errors mappingValidation)
        else
          match headers with
          | Throw _ => InternalError
          | Ok fileHeaders =>
              let validationErrors := column_errors entries fileHeaders in
              if (0 <? length validationErrors)%nat
              then BadRequest_columns validationErrors fileHeaders
              else Accepted
          end
  end.

(** What [analyzeFileHeaders] resolves with, given the header row and the
    outcome of the collaborator call. *)
Definition analyzeFileHeaders (collaborator : result (gmap string jsv))
    (headerList : list string) : gmap string jsv * ValidationReport :=
  let suggestedMapping := getSuggestedMapping collaborator headerList in
  (suggestedMapping, validateRequiredFields suggestedMapping headerList).

Definition sample_entries : list (string * jsv) :=
  [ ("a_party_id", Str "msisdn"); ("start_time", Str "start");
    ("end_time", Str "end"); ("duration_ms", Str "duration");
    ("src_ip", Str "source_ip"); ("dst_ip", Str "dest_ip");
    ("dst_port", Str "dest_port"); ("protocol", Str "proto") ].

Definition sample_file_headers : list string :=
  [ "msisdn"; "start"; "end"; "duration"; "source_ip"; "dest_ip";
    "dest_port"; "proto"; "comment" ].

(** What follows a field: a comma and more, or the final newline. *)
Definition separator_first (k : string) : Prop :=
  exists c k', k = String c k' /\ (c = comma \/ c = newline).


(** * Properties *)

(** ** MappingValidator *)

Lemma unmapped_falsy (m : gmap string jsv) (f : string) :
  unmapped m f = negb (truthy (get m f)).
Proof.
  unfold unmapped. destruct (get m f) as [| |s]; simpl; try reflexivity.
  apply orb_false_r.
Qed.

Lemma REQUIRED_KEYS_listed :
  REQUIRED_KEYS = ["a_party_id"; "src_ip"; "dst_ip"; "dst_port"; "start_time"].
Proof. reflexivity. Qed.

Lemma requiredFields_listed :
  requiredFields = ["a_party_id"; "start_time"; "dst_ip"; "dst_port"].
Proof. reflexivity. Qed.

Lemma errors_fields (m : gmap string jsv) (hs : list string) :
  map field (errors (validateRequiredFields m hs))
  = filter (fun f => truthy (get m f) = false) REQUIRED_KEYS.
Proof.
  unfold validateRequiredFields, errors, REQUIRED_KEYS, REQUIRED_FIELDS.
  cbn [map fst]. rewrite !filter_cons, !filter_nil. cbn [fst].
  rewrite !unmapped_falsy.
  destruct (truthy (get m "a_party_id")), (truthy (get m "src_ip")),
    (truthy (get m "dst_ip")), (truthy (get m "dst_port")),
    (truthy (get m "start_time")); reflexivity.
Qed.

Lemma isValid_errors (m : gmap string jsv) (hs : list string) :
  isValid (validateRequiredFields m hs) = true
  <-> errors (validateRequiredFields m hs) = [].
Proof.
  unfold validateRequiredFields; simpl.
  destruct (map required_error _); simpl; split; congruence.
Qed.

(** C1 (as amended).  The report of [validateRequiredFields] is invalid
    exactly when one of the five fields of the validator's own table
    [REQUIRED_FIELDS] (subscriber id, source ip, destination ip, destination
    port, start time) has no usable header, that is when the mapping's value
    for it is missing, null or the empty string; the errors name these
    fields, one error each, in table order. *)
Theorem validateRequiredFields_invalid_iff (mapping : gmap string jsv)
    (fileHeaders : list string) :
  let report := validateRequiredFields mapping fileHeaders in
  let table := ["a_party_id"; "src_ip"; "dst_ip"; "dst_port"; "start_time"] in
  REQUIRED_KEYS = table
  /\ (isValid report = false
      <-> exists f, In f table /\ truthy (get mapping f) = false)
  /\ map field (errors report)
     = filter (fun f => truthy (get mapping f) = false) table
  /\ length (errors report)
     = length (filter (fun f => truthy (get mapping f) = false) table)
  /\ Forall (fun e => severity e = "error"
                      /\ In (field e, message e) REQUIRED_FIELDS) (errors report).
Proof.
  intros report table.
  assert (Hf := errors_fields mapping fileHeaders).
  fold report in Hf. change REQUIRED_KEYS with table in Hf.
  split; [reflexivity|]. split; [|split; [exact Hf|split]].
  - rewrite <- not_true_iff_false. unfold report. rewrite isValid_errors.
    fold report. split.
    + intros Hne.
      destruct (filter (fun f => truthy (get mapping f) = false) table)
        as [|f l] eqn:E.
      * destruct (errors report); [congruence | discriminate Hf].
      * assert (Hin : f ∈ filter (fun f => truthy (get mapping f) = false) table)
          by (rewrite E; left).
        apply list_elem_of_filter in Hin. destruct Hin as [Hu Hin].
        exists f. split; [now apply list_elem_of_In | exact Hu].
    + intros [f [Hin Hu]] Hnil. rewrite Hnil in Hf. simpl in Hf.
      assert (f ∈ filter (fun f => truthy (get mapping f) = false) table)
        by (apply list_elem_of_filter; split; [exact Hu | now apply list_elem_of_In]).
      rewrite <- Hf in H. inversion H.
  - rewrite <- Hf. now rewrite length_map.
  - unfold report, validateRequiredFields; simpl.
    apply Forall_forall. intros e He.
    apply list_elem_of_fmap in He. destruct He as [entry [-> Hin]].
    apply list_elem_of_filter in Hin. destruct Hin as [_ Hin].
    split; [reflexivity|]. destruct entry as [f msg].
    change (In (f, msg) REQUIRED_FIELDS). now rewrite <- list_elem_of_In.
Qed.

(** C1 (as stated) fails.  With the four fields that the schema catalogue
    flags as required all mapped, the report is invalid although no field
    enumerated by the catalogue is unmapped; and with the subscriber field
    mapped to the empty header the report is invalid although none of the five
    listed fields is missing or null. *)
Lemma validateRequiredFields_not_schema_required :
  (isValid (validateRequiredFields schema_required_only []) = false
   /\ (forall f, In f requiredFields -> missing_or_null schema_required_only f = false)
   /\ ~ In "src_ip" requiredFields)
  /\ (isValid (validateRequiredFields empty_header_mapping []) = false
      /\ forall f, In f REQUIRED_KEYS -> missing_or_null empty_header_mapping f = false).
Proof.
  split; [split; [reflexivity | split] | split; [reflexivity |]].
  - intros f Hin. simpl in Hin.
    destruct Hin as [<-|[<-|[<-|[<-|[]]]]]; reflexivity.
  - simpl. intros H. repeat (destruct H as [H|H]; [discriminate H|]). exact H.
  - intros f Hin. simpl in Hin.
    destruct Hin as [<-|[<-|[<-|[<-|[<-|[]]]]]]; reflexivity.
Qed.

(** ** RecordTransformer: data-level validation *)

Lemma length_zero_nil {A : Type} (l : list A) : Nat.eqb (length l) 0 = true <-> l = [].
Proof. destruct l; simpl; split; congruence. Qed.

Lemma missing_fields_nil (mv : MV.t) :
  filter (fun e : string * string => missing_value (MV.lookup mv (fst e)) = true)
         REQUIRED_FIELDS = []
  <-> forall f, In f REQUIRED_KEYS -> missing_value (MV.lookup mv f) = false.
Proof.
  split.
  - intros Hnil f Hin. apply not_true_iff_false. intros Hm.
    unfold REQUIRED_KEYS in Hin. apply in_map_iff in Hin.
    destruct Hin as [e [<- Hin]].
    assert (He : e ∈ filter (fun e : string * string =>
                   missing_value (MV.lookup mv (fst e)) = true) REQUIRED_FIELDS)
      by (apply list_elem_of_filter; split; [exact Hm | now apply list_elem_of_In]).
    rewrite Hnil in He. inversion He.
  - intros Hall.
    destruct (filter _ REQUIRED_FIELDS) as [|e l] eqn:E; [reflexivity|].
    assert (He : e ∈ filter (fun e : string * string =>
                   missing_value (MV.lookup mv (fst e)) = true) REQUIRED_FIELDS)
      by (rewrite E; left).
    apply list_elem_of_filter in He. destruct He as [Hm Hin].
    rewrite Hall in Hm; [discriminate Hm|].
    unfold REQUIRED_KEYS. apply in_map. now apply list_elem_of_In.
Qed.

Lemma validateRecord_ok_iff (P : platform) (mv : MV.t) (raw : gmap string string) :
  rv_isValid (_validateRecord P mv raw) = true
  <-> (forall f, In f REQUIRED_KEYS -> missing_value (MV.lookup mv f) = false)
      /\ bad_start_time P mv = false
      /\ bad_dst_port mv = false
      /\ bad_ip (MV.src_ip mv) = false
      /\ bad_ip (MV.dst_ip mv) = false.
Proof.
  unfold _validateRecord. cbn [rv_isValid]. rewrite length_zero_nil.
  rewrite <- missing_fields_nil.
  destruct (filter _ REQUIRED_FIELDS) as [|e l].
  - cbn [map app].
    destruct (bad_start_time P mv), (bad_dst_port mv), (bad_ip (MV.src_ip mv)),
      (bad_ip (MV.dst_ip mv)); cbn; intuition congruence.
  - cbn. intuition congruence.
Qed.

Lemma validateRecord_fails_iff (P : platform) (mv : MV.t) (raw : gmap string string) :
  rv_isValid (_validateRecord P mv raw) = false <-> fails_validation P mv.
Proof.
  rewrite <- not_true_iff_false, validateRecord_ok_iff. unfold fails_validation.
  split.
  - intros Hn.
    destruct (bad_start_time P mv) eqn:E1; [tauto|].
    destruct (bad_dst_port mv) eqn:E2; [tauto|].
    destruct (bad_ip (MV.src_ip mv)) eqn:E3; [tauto|].
    destruct (bad_ip (MV.dst_ip mv)) eqn:E4; [tauto|].
    left.
    destruct (filter (fun e : string * string =>
                missing_value (MV.lookup mv (fst e)) = true) REQUIRED_FIELDS)
      as [|e l] eqn:E.
    + exfalso. apply Hn. rewrite <- missing_fields_nil. tauto.
    + assert (He : e ∈ filter (fun e : string * string =>
                missing_value (MV.lookup mv (fst e)) = true) REQUIRED_FIELDS)
        by (rewrite E; left).
      apply list_elem_of_filter in He. destruct He as [Hm Hin].
      exists (fst e). split; [|exact Hm].
      unfold REQUIRED_KEYS. apply in_map. now apply list_elem_of_In.
  - intros [[f [Hin Hm]]|[H|[H|[H|H]]]] [Hall [H1 [H2 [H3 H4]]]];
      try congruence.
    rewrite (Hall f Hin) in Hm. discriminate Hm.
Qed.

(** ** RecordTransformer: the per-row operation *)

Lemma transform_rejected (P : platform) (amb : ambient) (st : IPDRProcessor)
    (raw : gmap string string) :
  rejected P (mapping st) raw = true ->
  _transform P amb st raw
  = (reject st (rv_errors (_validateRecord P (_extractMappedValues (mapping st) raw) raw))
            raw, []).
Proof.
  unfold rejected, _transform, transform_try. intros ->. reflexivity.
Qed.

Lemma transform_accepted (P : platform) (amb : ambient) (st : IPDRProcessor)
    (raw : gmap string string) :
  rejected P (mapping st) raw = false ->
  _transform P amb st raw
  = match _recordToCsv P (_processRecord P amb (_extractMappedValues (mapping st) raw) raw) with
    | Ok csvLine => (accept st, [csvLine])
    | Throw _ => (count_failure st, [])
    end.
Proof.
  unfold rejected, _transform, transform_try. intros ->.
  destruct (_recordToCsv _ _); reflexivity.
Qed.

Lemma transform_mapping (P : platform) (amb : ambient) (st : IPDRProcessor)
    (raw : gmap string string) :
  mapping (fst (_transform P amb st raw)) = mapping st.
Proof.
  destruct (rejected P (mapping st) raw) eqn:E.
  - now rewrite transform_rejected.
  - rewrite transform_accepted by exact E.
    destruct (_recordToCsv _ _); reflexivity.
Qed.

Lemma run_cons (P : platform) (st : IPDRProcessor) (amb : ambient)
    (raw : gmap string string) (rest : list (ambient * gmap string string)) :
  run P st ((amb, raw) :: rest)
  = (fst (run P (fst (_transform P amb st raw)) rest),
     snd (_transform P amb st raw) ++ snd (run P (fst (_transform P amb st raw)) rest)).
Proof.
  cbn [run]. destruct (_transform P amb st raw) as [st1 out1].
  cbn [fst snd]. destruct (run P st1 rest); reflexivity.
Qed.

Lemma transform_diagnostics (P : platform) (amb : ambient) (st : IPDRProcessor)
    (raw : gmap string string) :
  length (validationErrors (fst (_transform P amb st raw)))
  = length (validationErrors st) + (if rejected P (mapping st) raw then 1 else 0).
Proof.
  destruct (rejected P (mapping st) raw) eqn:E.
  - rewrite transform_rejected by exact E. cbn. rewrite length_app. reflexivity.
  - rewrite transform_accepted by exact E.
    destruct (_recordToCsv _ _); cbn; lia.
Qed.

Lemma run_diagnostics (P : platform) (rows : list (ambient * gmap string string)) :
  forall st : IPDRProcessor,
  length (validationErrors (fst (run P st rows)))
  = length (validationErrors st)
    + length (filter (fun r => rejected P (mapping st) (snd r) = true) rows).
Proof.
  induction rows as [|[amb raw] rest IH]; intros st.
  - cbn. lia.
  - rewrite run_cons. cbn [fst]. rewrite IH, transform_mapping, transform_diagnostics.
    rewrite filter_cons. cbn [snd].
    destruct (decide (rejected P (mapping st) raw = true)) as [E|E].
    + rewrite E. cbn [length]. lia.
    + apply not_true_is_false in E. rewrite E. lia.
Qed.

(** C2.  A row that fails data-level validation (a required value missing,
    empty, null or NULL; a start time that does not parse; a destination
    port that does not parse to a positive number; a malformed source or
    destination address) yields no output line, raises [errorCount] by
    exactly one and leaves [recordCount] alone; the operation returns
    normally and the stream goes on with the next row. *)
Theorem invalid_row_is_skipped (P : platform) (amb : ambient)
    (st : IPDRProcessor) (rawRecord : gmap string string) :
  fails_validation P (_extractMappedValues (mapping st) rawRecord) ->
  let st' := fst (_transform P amb st rawRecord) in
  snd (_transform P amb st rawRecord) = []
  /\ errorCount st' = S (errorCount st)
  /\ recordCount st' = recordCount st
  /\ mapping st' = mapping st
  /\ forall rest, run P st ((amb, rawRecord) :: rest) = run P st' rest.
Proof.
  intros Hf st'. apply validateRecord_fails_iff with (raw := rawRecord) in Hf.
  assert (Hr : rejected P (mapping st) rawRecord = true)
    by (unfold rejected; now rewrite Hf).
  subst st'. rewrite (transform_rejected _ _ _ _ Hr). cbn [fst snd].
  repeat split.
  intros rest. rewrite run_cons, (transform_rejected _ _ _ _ Hr). cbn [fst snd].
  now destruct (run P _ rest).
Qed.

Lemma invalid_row_is_skipped_witness :
  fails_validation sample_platform
    (_extractMappedValues (mapping (new_IPDRProcessor sample_mapping)) no_dst_row)
  /\ snd (_transform sample_platform sample_ambient
            (new_IPDRProcessor sample_mapping) no_dst_row) = []
  /\ errorCount (fst (_transform sample_platform sample_ambient
                        (new_IPDRProcessor sample_mapping) no_dst_row)) = 1.
Proof.
  assert (H : fails_validation sample_platform
    (_extractMappedValues (mapping (new_IPDRProcessor sample_mapping)) no_dst_row)).
  { left. exists "dst_ip". split; [right; right; left; reflexivity | reflexivity]. }
  split; [exact H|].
  destruct (invalid_row_is_skipped sample_platform sample_ambient
              (new_IPDRProcessor sample_mapping) no_dst_row H) as [Ho [He _]].
  split; [exact Ho | exact He].
Defined.

(** C5 (as amended).  The diagnostic list is not capped: a run appends one
    entry for every row that data-level validation rejects, so its length
    grows by the number of such rows. *)
Theorem diagnostics_grow_with_rejections (P : platform) (st : IPDRProcessor)
    (rows : list (ambient * gmap string string)) :
  length (stats_validationErrors (getProcessingStats (fst (run P st rows))))
  = length (validationErrors st)
    + length (filter (fun r => rejected P (mapping st) (snd r) = true) rows).
Proof. cbn [getProcessingStats stats_validationErrors]. apply run_diagnostics. Qed.

(** C5 (as stated) fails: no bound holds for every file; a file of [B + 1]
    rows without a destination address leaves [B + 1] diagnostics. *)
Lemma diagnostics_unbounded :
  ~ exists B : nat,
      forall rows : list (ambient * gmap string string),
        length (stats_validationErrors
                  (getProcessingStats
                     (fst (run sample_platform (new_IPDRProcessor sample_mapping) rows))))
        <= B.
Proof.
  intros [B HB].
  specialize (HB (repeat (sample_ambient, no_dst_row) (S B))).
  cbn [getProcessingStats stats_validationErrors] in HB.
  rewrite run_diagnostics in HB.
  assert (Hlen : forall n,
    length (filter (fun r : ambient * gmap string string =>
              rejected sample_platform (mapping (new_IPDRProcessor sample_mapping))
                       (snd r) = true)
           (repeat (sample_ambient, no_dst_row) n)) = n).
  { induction n as [|n IH]; [reflexivity|].
    cbn [repeat]. rewrite filter_cons.
    destruct (decide _) as [_|Hn]; [cbn [length]; now rewrite IH|].
    exfalso. apply Hn. vm_compute. reflexivity. }
  rewrite Hlen in HB. cbn in HB. lia.
Qed.

(** ** RecordTransformer: accepted rows *)

Lemma truthy_Str (v : jsv) :
  truthy v = true <-> exists s, v = Str s /\ s <> "".
Proof.
  destruct v as [| |s]; cbn; split; try discriminate;
    try (intros [s' [H _]]; discriminate H).
  - intros H. exists s. split; [reflexivity|].
    intros ->. discriminate H.
  - intros [s' [[= <-] Hne]]. apply negb_true_iff, String.eqb_neq. exact Hne.
Qed.

Lemma present_value (v : jsv) :
  missing_value v = false ->
  exists s, v = Str s /\ s <> "" /\ s <> "null" /\ s <> "NULL".
Proof.
  unfold missing_value. intros H.
  apply orb_false_iff in H. destruct H as [H H3].
  apply orb_false_iff in H. destruct H as [H H2].
  apply orb_false_iff in H. destruct H as [H0 H1].
  apply negb_false_iff, truthy_Str in H0. destruct H0 as [s [-> Hne]].
  exists s. cbn in H2, H3. apply String.eqb_neq in H2, H3. auto.
Qed.

Lemma extract_Str (m : gmap string jsv) (raw : gmap string string) (f s : string) :
  extract m raw f = Str s ->
  exists h, get m f = Str h /\ h <> "" /\ raw !! h = Some s.
Proof.
  unfold extract. destruct (get m f) as [| |h]; try discriminate.
  destruct (truthy (Str h)) eqn:E; [|discriminate].
  apply truthy_Str in E. destruct E as [h' [[= <-] Hne]].
  unfold cell. destruct (raw !! h) as [s'|] eqn:R; [|discriminate].
  intros [= ->]. exists h. repeat split; assumption.
Qed.

Lemma accepted_ok (P : platform) (m : gmap string jsv) (raw : gmap string string) :
  rejected P m raw = false ->
  rv_isValid (_validateRecord P (_extractMappedValues m raw) raw) = true.
Proof. unfold rejected. now intros H%negb_false_iff. Qed.

Lemma accepted_subscriber (P : platform) (m : gmap string jsv)
    (raw : gmap string string) :
  rejected P m raw = false ->
  exists s, MV.a_party_id (_extractMappedValues m raw) = Str s
            /\ s <> "" /\ s <> "null" /\ s <> "NULL".
Proof.
  intros H%accepted_ok%validateRecord_ok_iff. destruct H as [Hreq _].
  apply present_value. apply (Hreq "a_party_id"). left. reflexivity.
Qed.

Lemma accepted_start (P : platform) (m : gmap string jsv)
    (raw : gmap string string) :
  rejected P m raw = false ->
  exists s t, MV.start_time (_extractMappedValues m raw) = Str s
              /\ s <> "" /\ Date_parse P s = Some t.
Proof.
  intros H%accepted_ok%validateRecord_ok_iff. destruct H as [Hreq [Hs _]].
  destruct (present_value (MV.start_time (_extractMappedValues m raw)))
    as [s [Hv [Hne _]]].
  { apply (Hreq "start_time"). do 4 right. left. reflexivity. }
  unfold bad_start_time in Hs. rewrite Hv in Hs.
  assert (Ht : truthy (Str s) = true) by (apply truthy_Str; eauto).
  rewrite Ht in Hs. cbn in Hs.
  destruct (Date_parse P s) as [t|] eqn:E; [|discriminate Hs].
  exists s, t. auto.
Qed.

Lemma or_else_present (s d : string) : s <> "" -> or_else (Str s) d = s.
Proof.
  intros Hne. unfold or_else.
  assert (Ht : truthy (Str s) = true) by (apply truthy_Str; eauto).
  now rewrite Ht.
Qed.

Lemma mapM_Ok {A B : Type} (f : A -> result B) (l : list A) (k : list B) :
  mapM f l = Ok k <-> Forall2 (fun x y => f x = Ok y) l k.
Proof.
  revert k. induction l as [|x l IH]; intros k.
  - cbn. split.
    + intros [= <-]. constructor.
    + intros H. inversion H. reflexivity.
  - cbn [mapM]. unfold mbind, result_bind, mret, result_ret.
    destruct (f x) as [y|e] eqn:Ex.
    + destruct (mapM f l) as [k'|e] eqn:El.
      * split.
        -- intros [= <-]. constructor; [exact Ex | now apply IH].
        -- intros H. inversion H as [|? y' ? k'' Hy Hk]; subst.
           apply IH in Hk. congruence.
      * split; [discriminate|].
        intros H. inversion H as [|? y' ? k'' Hy Hk]; subst.
        apply IH in Hk. discriminate Hk.
    + split; [discriminate|].
      intros H. inversion H; subst. congruence.
Qed.

Lemma recordToCsv_Ok (P : platform) (r : CR.t) (line : string) :
  _recordToCsv P r = Ok line
  <-> exists fields,
        Forall2 (fun v f => toCsv P v = Ok f) (csv_columns r) fields
        /\ line = join "," fields +:+ nl.
Proof.
  unfold _recordToCsv. unfold mbind at 1, result_bind at 1.
  destruct (mapM (toCsv P) (csv_columns r)) as [fields|e] eqn:E.
  - apply mapM_Ok in E. split.
    + intros [= <-]. eauto.
    + intros [fields' [H ->]]. apply mapM_Ok in H, E. congruence.
  - split; [discriminate|].
    intros [fields' [H ->]]. apply mapM_Ok in H. congruence.
Qed.

Lemma toCsv_Str (P : platform) (s : string) :
  toCsv P (VStr s) = Ok (if needs_quoting s then quoted s else s).
Proof. cbn. destruct (needs_quoting s); reflexivity. Qed.



(** C9.  On an accepted row the subscriber identifier of the emitted
    record is the value read from the mapped column of the row, whatever
    the clock and the random source give: validation has already required
    that value to be present, so the synthesized identifier is never used. *)
Theorem accepted_row_keeps_subscriber (P : platform) (amb : ambient)
    (m : gmap string jsv) (rawRecord : gmap string string) :
  rejected P m rawRecord = false ->
  exists h s,
    get m "a_party_id" = Str h
    /\ rawRecord !! h = Some s
    /\ s <> ""
    /\ CR.a_party_id (_processRecord P amb (_extractMappedValues m rawRecord) rawRecord)
       = VStr s
    /\ (forall amb',
          CR.a_party_id (_processRecord P amb' (_extractMappedValues m rawRecord) rawRecord)
          = VStr s)
    /\ (forall synthesized,
          or_else (MV.a_party_id (_extractMappedValues m rawRecord)) synthesized = s).
Proof.
  intros Hacc.
  destruct (accepted_subscriber P m rawRecord Hacc) as [s [Hs [Hne _]]].
  destruct (extract_Str m rawRecord "a_party_id" s Hs) as [h [Hh [_ Hraw]]].
  assert (Hor : forall d, or_else (MV.a_party_id (_extractMappedValues m rawRecord)) d = s)
    by (intros d; rewrite Hs; now apply or_else_present).
  exists h, s. repeat split; try assumption.
  - unfold _processRecord. cbn [CR.a_party_id]. now rewrite Hor.
  - intros amb'. unfold _processRecord. cbn [CR.a_party_id]. now rewrite Hor.
Qed.

Lemma accepted_row_keeps_subscriber_witness :
  rejected sample_platform sample_mapping good_row = false
  /\ exists h s,
       get sample_mapping "a_party_id" = Str h
       /\ good_row !! h = Some s
       /\ CR.a_party_id (_processRecord sample_platform sample_ambient
                            (_extractMappedValues sample_mapping good_row) good_row)
          = VStr s.
Proof.
  assert (H : rejected sample_platform sample_mapping good_row = false)
    by (vm_compute; reflexivity).
  split; [exact H|].
  destruct (accepted_row_keeps_subscriber sample_platform sample_ambient
              sample_mapping good_row H) as [h [s [H1 [H2 [_ [H3 _]]]]]].
  exists h, s. auto.
Defined.

(** C10.  Data-level validation never looks at the end time; yet a row
    that passes it and whose end time is present but does not parse as a
    date is not emitted: encoding the invalid date throws, the failure is
    caught, [errorCount] goes up by one, [recordCount] stays, and nothing is
    added to the diagnostic list. *)
Theorem unparsable_end_time_dropped_silently (P : platform) (amb : ambient)
    (st : IPDRProcessor) (rawRecord : gmap string string) (e : string) :
  rejected P (mapping st) rawRecord = false ->
  MV.end_time (_extractMappedValues (mapping st) rawRecord) = Str e ->
  e <> "" ->
  Date_parse P e = None ->
  let st' := fst (_transform P amb st rawRecord) in
  snd (_transform P amb st rawRecord) = []
  /\ errorCount st' = S (errorCount st)
  /\ recordCount st' = recordCount st
  /\ validationErrors st' = validationErrors st
  /\ (exists x, _recordToCsv P (_processRecord P amb
                   (_extractMappedValues (mapping st) rawRecord) rawRecord) = Throw x)
  /\ (forall mv v raw, _validateRecord P (with_end_time mv v) raw = _validateRecord P mv raw).
Proof.
  intros Hacc He Hne Hnan st'.
  destruct (accepted_start P _ rawRecord Hacc) as [s [t [Hs [Hsne Ht]]]].
  assert (Hthrow : _recordToCsv P (_processRecord P amb
                   (_extractMappedValues (mapping st) rawRecord) rawRecord)
                   = Throw (RangeError "Invalid time value")).
  { unfold _recordToCsv, csv_columns, _processRecord.
    cbn [CR.a_party_id CR.start_time CR.end_time].
    rewrite Hs, He.
    assert (H1 : truthy (Str s) = true) by (apply truthy_Str; eauto).
    assert (H2 : truthy (Str e) = true) by (apply truthy_Str; eauto).
    rewrite H1, H2, Ht, Hnan.
    cbn [mapM]. rewrite toCsv_Str.
    reflexivity. }
  subst st'. rewrite (transform_accepted _ _ _ _ Hacc), Hthrow. cbn [fst snd].
  repeat split; eauto.
Qed.

Lemma unparsable_end_time_dropped_silently_witness :
  rejected sample_platform (mapping (new_IPDRProcessor sample_mapping)) bad_end_row = false
  /\ snd (_transform sample_platform sample_ambient
            (new_IPDRProcessor sample_mapping) bad_end_row) = []
  /\ errorCount (fst (_transform sample_platform sample_ambient
                        (new_IPDRProcessor sample_mapping) bad_end_row)) = 1
  /\ validationErrors (fst (_transform sample_platform sample_ambient
                              (new_IPDRProcessor sample_mapping) bad_end_row)) = [].
Proof.
  assert (H : rejected sample_platform (mapping (new_IPDRProcessor sample_mapping))
                bad_end_row = false) by (vm_compute; reflexivity).
  split; [exact H|].
  assert (He : MV.end_time (_extractMappedValues
                 (mapping (new_IPDRProcessor sample_mapping)) bad_end_row) = Str "garbage")
    by (vm_compute; reflexivity).
  destruct (unparsable_end_time_dropped_silently sample_platform sample_ambient
              (new_IPDRProcessor sample_mapping) bad_end_row "garbage" H He
              ltac:(discriminate) eq_refl) as [H1 [H2 [_ [H4 _]]]].
  split; [exact H1 | split; [exact H2 | exact H4]].
Defined.

(** ** CanonicalEncoder *)

Lemma includes_char (c : ascii) (s : string) :
  includes s (String c EmptyString) = string_exists (Ascii.eqb c) s.
Proof.
  induction s as [|a s IH]; [reflexivity|].
  cbn [includes string_exists String.prefix]. rewrite IH.
  destruct (Ascii.ascii_dec c a) as [->|Hne].
  - rewrite Ascii.eqb_refl. now destruct s.
  - apply Ascii.eqb_neq in Hne. rewrite Hne. reflexivity.
Qed.

Lemma needs_quoting_special (s : string) :
  needs_quoting s = string_exists special s.
Proof.
  unfold needs_quoting, dq, nl.
  change "," with (String comma EmptyString). rewrite !includes_char.
  induction s as [|a s IH]; [reflexivity|].
  cbn [string_exists]. rewrite <- IH. unfold special.
  rewrite (Ascii.eqb_sym a comma), (Ascii.eqb_sym a dquote), (Ascii.eqb_sym a newline).
  destruct (Ascii.eqb comma a), (Ascii.eqb dquote a), (Ascii.eqb newline a),
    (string_exists (Ascii.eqb comma) s), (string_exists (Ascii.eqb dquote) s);
    reflexivity.
Qed.

Lemma quoted_cons (s : string) :
  quoted s = String dquote (double_quotes s +:+ dq).
Proof. reflexivity. Qed.

Lemma plain_not_quoted (s : string) :
  needs_quoting s = false -> s <> quoted s.
Proof.
  intros Hn Heq. rewrite quoted_cons in Heq.
  unfold needs_quoting in Hn.
  apply orb_false_iff in Hn. destruct Hn as [Hn _].
  apply orb_false_iff in Hn. destruct Hn as [_ Hn].
  change dq with (String dquote EmptyString) in Hn.
  rewrite includes_char in Hn.
  destruct s as [|c s']; [discriminate Heq|].
  injection Heq as Hc _. subst c.
  cbn [string_exists] in Hn. rewrite Ascii.eqb_refl in Hn. discriminate Hn.
Qed.

Lemma append_cons (c : ascii) (a b : string) :
  String c a +:+ b = String c (a +:+ b).
Proof. reflexivity. Qed.

Lemma unquote_double_quotes (s : string) :
  unquote (double_quotes s +:+ dq) = Some s.
Proof.
  induction s as [|c s IH]; [reflexivity|].
  cbn [double_quotes]. destruct (Ascii.eqb c dquote) eqn:E.
  - apply Ascii.eqb_eq in E. subst c.
    rewrite !append_cons. cbn [unquote]. rewrite Ascii.eqb_refl, IH. reflexivity.
  - rewrite append_cons. cbn [unquote]. rewrite E, IH. reflexivity.
Qed.

Lemma decode_quoted (s : string) : csv_decode_field (quoted s) = Some s.
Proof.
  rewrite quoted_cons. cbn [csv_decode_field]. rewrite Ascii.eqb_refl.
  apply unquote_double_quotes.
Qed.

Lemma decode_plain (s : string) :
  needs_quoting s = false -> csv_decode_field s = Some s.
Proof.
  intros Hn. destruct s as [|c s]; [reflexivity|].
  cbn [csv_decode_field]. destruct (Ascii.eqb c dquote) eqn:E; [|reflexivity].
  exfalso. unfold needs_quoting in Hn.
  apply orb_false_iff in Hn. destruct Hn as [Hn _].
  apply orb_false_iff in Hn. destruct Hn as [_ Hn].
  change dq with (String dquote EmptyString) in Hn.
  rewrite includes_char in Hn. cbn [string_exists] in Hn.
  rewrite Ascii.eqb_sym, E in Hn. discriminate Hn.
Qed.

Lemma Forall2_columns_length (P : platform) (r : CR.t) (fields : list string) :
  Forall2 (fun v f => toCsv P v = Ok f) (csv_columns r) fields -> length fields = 14.
Proof. intros H. apply Forall2_length in H. rewrite <- H. reflexivity. Qed.

(** C7.  Null, undefined and NaN encode as the empty field.  A string or
    number is wrapped in double quotes, with its double quotes doubled,
    exactly when its string form holds a comma, a double quote or a newline,
    and is written as it is otherwise.  A record that encodes gives its
    fourteen fields joined by commas and ended by one newline.  The example
    value (an a, a comma and a b in double quotes) encodes as the same text
    with its two quotes doubled and one more quote on each side, and reading
    any encoded string back by the CSV rule gives the string. *)
Theorem toCsv_quoting (P : platform) :
  (toCsv P VNull = Ok "" /\ toCsv P VUndefined = Ok "" /\ toCsv P (VNum None) = Ok "")
  /\ (forall s,
        toCsv P (VStr s) = Ok (if string_exists special s then dq +:+ double_quotes s +:+ dq else s)
        /\ (toCsv P (VStr s) = Ok (dq +:+ double_quotes s +:+ dq)
            <-> string_exists special s = true))
  /\ (forall n,
        toCsv P (VNum (Some n))
        = Ok (if string_exists special (string_of_Z n)
              then dq +:+ double_quotes (string_of_Z n) +:+ dq else string_of_Z n))
  /\ (forall r line,
        _recordToCsv P r = Ok line
        <-> exists fields,
              Forall2 (fun v f => toCsv P v = Ok f) (csv_columns r) fields
              /\ length fields = 14
              /\ line = join "," fields +:+ String newline EmptyString)
  /\ toCsv P (VStr example_field) = Ok example_field_encoded
  /\ csv_decode_field example_field_encoded = Some example_field
  /\ (forall s, exists e, toCsv P (VStr s) = Ok e /\ csv_decode_field e = Some s).
Proof.
  split; [repeat split|]. split; [|split; [|split; [|split; [|split]]]].
  - intros s. rewrite toCsv_Str, needs_quoting_special. split; [reflexivity|].
    destruct (string_exists special s) eqn:E.
    + split; reflexivity.
    + split; [|discriminate]. intros [= H]. exfalso.
      apply (plain_not_quoted s); [now rewrite needs_quoting_special | exact H].
  - intros n. cbn [toCsv ToString]. rewrite needs_quoting_special.
    destruct (string_exists special (string_of_Z n)); reflexivity.
  - intros r line. rewrite recordToCsv_Ok. split.
    + intros [fields [H ->]]. exists fields.
      split; [exact H|]. split; [|reflexivity].
      now apply (Forall2_columns_length P r).
    + intros [fields [H [_ ->]]]. exists fields. split; [exact H | reflexivity].
  - reflexivity.
  - reflexivity.
  - intros s. rewrite toCsv_Str. destruct (needs_quoting s) eqn:E.
    + exists (quoted s). split; [reflexivity | apply decode_quoted].
    + exists s. split; [reflexivity | now apply decode_plain].
Qed.


(** ** Statistics *)




(** ** FuzzyMatcher *)

Lemma Qgt_bool_true (a b : Q) : Qgt_bool a b = true <-> (b < a)%Q.
Proof.
  unfold Qgt_bool. rewrite negb_true_iff, <- not_true_iff_false, Qle_bool_iff.
  split; [apply Qnot_le_lt | apply Qlt_not_le].
Qed.

Lemma Qgt_bool_false (a b : Q) : Qgt_bool a b = false <-> (a <= b)%Q.
Proof.
  unfold Qgt_bool. rewrite negb_false_iff. apply Qle_bool_iff.
Qed.

Lemma alias_score_rule (header pattern : string) :
  alias_score header pattern
  = if String.eqb (normalize header) (normalize pattern) then 1%Q
    else if includes (normalize header) (normalize pattern)
            || includes (normalize pattern) (normalize header)
    then (8 # 10)%Q
    else if Qgt_bool (calculateSimilarity (normalize header) (normalize pattern)) (7 # 10)
    then calculateSimilarity (normalize header) (normalize pattern)
    else 0%Q.
Proof. reflexivity. Qed.

Lemma fuzzy_loop_cons (h p : string) (rest : list string) :
  fuzzy_loop (normalize h) (p :: rest)
  = if Qgt_bool (alias_score h p) 0 then alias_score h p
    else fuzzy_loop (normalize h) rest.
Proof.
  rewrite alias_score_rule. cbn [fuzzy_loop].
  destruct (String.eqb _ _); [reflexivity|].
  destruct (includes _ _ || includes _ _); [reflexivity|].
  destruct (Qgt_bool (calculateSimilarity _ _) (7 # 10)) eqn:E.
  - assert (H : Qgt_bool (calculateSimilarity (normalize h) (normalize p)) 0 = true).
    { apply Qgt_bool_true. apply Qgt_bool_true in E.
      eapply Qlt_trans; [|exact E]. reflexivity. }
    now rewrite H.
  - reflexivity.
Qed.

Lemma fuzzy_first (header : string) (patterns : list string) :
  fuzzyMatchField header patterns = first_alias_score header patterns.
Proof.
  unfold fuzzyMatchField. induction patterns as [|p rest IH]; [reflexivity|].
  rewrite fuzzy_loop_cons. cbn [first_alias_score]. now rewrite IH.
Qed.

Lemma highest_nonneg (header : string) (patterns : list string) :
  (0 <= highest_alias_score header patterns)%Q.
Proof.
  induction patterns as [|p rest IH]; [apply Qle_refl|].
  cbn [highest_alias_score fold_right].
  fold (highest_alias_score header rest).
  destruct (Qgt_bool _ _) eqn:E; [|exact IH].
  apply Qgt_bool_true in E. apply Qlt_le_weak.
  eapply Qle_lt_trans; [exact IH | exact E].
Qed.

Lemma first_le_highest (header : string) (patterns : list string) :
  (first_alias_score header patterns <= highest_alias_score header patterns)%Q.
Proof.
  induction patterns as [|p rest IH]; [apply Qle_refl|].
  cbn [first_alias_score highest_alias_score fold_right].
  fold (highest_alias_score header rest).
  destruct (Qgt_bool (alias_score header p) 0) eqn:E0;
    destruct (Qgt_bool (alias_score header p) (highest_alias_score header rest)) eqn:E1.
  - apply Qle_refl.
  - now apply Qgt_bool_false.
  - apply Qgt_bool_true in E1. apply Qlt_le_weak.
    eapply Qle_lt_trans; [exact IH | exact E1].
  - exact IH.
Qed.

(** C3 (as amended).  [fuzzyMatchField] returns the score of the first
    alias, in list order, that scores at all, and 0 when none does; an alias
    scores 1 on equality of the normalized strings, 0.8 when one contains
    the other, its edit-distance similarity when that exceeds 0.7, and
    nothing otherwise.  The result never exceeds the highest per-alias
    score. *)
Theorem fuzzyMatchField_first_match (header : string) (patterns : list string) :
  fuzzyMatchField header patterns = first_alias_score header patterns
  /\ (forall pattern,
        alias_score header pattern
        = if String.eqb (normalize header) (normalize pattern) then 1%Q
          else if includes (normalize header) (normalize pattern)
                  || includes (normalize pattern) (normalize header)
          then (8 # 10)%Q
          else if Qgt_bool (calculateSimilarity (normalize header) (normalize pattern))
                           (7 # 10)
          then calculateSimilarity (normalize header) (normalize pattern)
          else 0%Q)
  /\ (fuzzyMatchField header patterns <= highest_alias_score header patterns)%Q.
Proof.
  split; [apply fuzzy_first|]. split; [intros p; apply alias_score_rule|].
  rewrite fuzzy_first. apply first_le_highest.
Qed.

(** C3 (as stated) fails: for the header [subscriber] and the aliases of
    the subscriber field the result is 0.8, the score of the earlier alias
    [subscriber_id], although the later alias [subscriber] scores 1. *)
Lemma fuzzyMatchField_not_highest :
  fuzzyMatchField "subscriber" (patterns_of "a_party_id") = (8 # 10)%Q
  /\ alias_score "subscriber" "subscriber" = 1%Q
  /\ In "subscriber" (patterns_of "a_party_id")
  /\ highest_alias_score "subscriber" (patterns_of "a_party_id") = 1%Q
  /\ ~ (fuzzyMatchField "subscriber" (patterns_of "a_party_id")
        == highest_alias_score "subscriber" (patterns_of "a_party_id"))%Q.
Proof.
  split; [vm_compute; reflexivity|]. split; [vm_compute; reflexivity|].
  split; [vm_compute; tauto|]. split; [vm_compute; reflexivity|].
  vm_compute. discriminate.
Qed.

(** ** MappingSuggester *)

Lemma get_insert_eq (m : gmap string jsv) (k : string) (v : jsv) :
  get (<[k := v]> m) k = v.
Proof. unfold get. now rewrite lookup_insert_eq. Qed.

Lemma get_insert_ne (m : gmap string jsv) (k k' : string) (v : jsv) :
  k <> k' -> get (<[k := v]> m) k' = get m k'.
Proof. intros H. unfold get. now rewrite lookup_insert_ne. Qed.

Lemma enhance_lookup (aiMapping fallbackMapping : gmap string jsv) (f : string) :
  enhance aiMapping fallbackMapping !! f
  = if negb (truthy (get aiMapping f)) && truthy (get fallbackMapping f)
    then fallbackMapping !! f else aiMapping !! f.
Proof.
  revert f. unfold enhance.
  apply (map_fold_weak_ind (fun (acc m : gmap string jsv) =>
    forall f, acc !! f
              = if negb (truthy (get aiMapping f)) && truthy (get m f)
                then m !! f else aiMapping !! f)).
  - intros f. unfold get at 2. rewrite lookup_empty. cbn.
    now rewrite andb_false_r.
  - intros i x m r Hi IH f.
    assert (Hri : get r i = get aiMapping i).
    { unfold get at 1. rewrite IH. unfold get at 2. rewrite Hi. cbn.
      rewrite andb_false_r. reflexivity. }
    rewrite Hri. destruct (decide (i = f)) as [->|Hne].
    + rewrite get_insert_eq, lookup_insert_eq.
      destruct (negb (truthy (get aiMapping f)) && truthy x) eqn:E.
      * now rewrite lookup_insert_eq.
      * rewrite IH. unfold get at 2. rewrite Hi. cbn.
        now rewrite andb_false_r.
    + rewrite (get_insert_ne m i f x Hne), (lookup_insert_ne m i f x Hne).
      destruct (negb (truthy (get aiMapping i)) && truthy x).
      * rewrite lookup_insert_ne by exact Hne. apply IH.
      * apply IH.
Qed.

Lemma find_none_notin (f : string) (entries : list (string * list string)) :
  ~ In f (map fst entries) ->
  List.find (fun e => String.eqb (fst e) f) entries = None.
Proof.
  induction entries as [|e rest IH]; [reflexivity|].
  cbn [map In List.find]. intros Hn.
  destruct (String.eqb (fst e) f) eqn:E.
  - apply String.eqb_eq in E. tauto.
  - apply IH. tauto.
Qed.

Lemma fallback_fold (fileHeaders : list string) (entries : list (string * list string)) :
  List.NoDup (map fst entries) ->
  forall (init : gmap string jsv) (f : string),
  get (fold_left (fallback_step fileHeaders) entries init) f
  = match List.find (fun e => String.eqb (fst e) f) entries with
    | Some e =>
        if truthy (fst (best_header (snd e) fileHeaders Null 0%Q))
        then fst (best_header (snd e) fileHeaders Null 0%Q)
        else get init f
    | None => get init f
    end.
Proof.
  induction entries as [|e rest IH]; intros Hnd init f; [reflexivity|].
  cbn [map] in Hnd. apply List.NoDup_cons_iff in Hnd. destruct Hnd as [Hnotin Hnd].
  cbn [fold_left List.find]. rewrite (IH Hnd).
  assert (Hs : get (fallback_step fileHeaders init e) f
               = if String.eqb (fst e) f
                 then (if truthy (fst (best_header (snd e) fileHeaders Null 0%Q))
                       then fst (best_header (snd e) fileHeaders Null 0%Q)
                       else get init f)
                 else get init f).
  { unfold fallback_step.
    destruct (best_header (snd e) fileHeaders Null 0%Q) as [b q]. cbn [fst].
    destruct (String.eqb (fst e) f) eqn:E.
    - apply String.eqb_eq in E. subst f.
      destruct (truthy b); [apply get_insert_eq | reflexivity].
    - apply String.eqb_neq in E.
      destruct (truthy b); [|reflexivity].
      apply get_insert_ne. exact E. }
  rewrite Hs. destruct (String.eqb (fst e) f) eqn:E.
  - apply String.eqb_eq in E. subst f.
    now rewrite (find_none_notin _ _ Hnotin).
  - reflexivity.
Qed.

(** What the fallback chooses for a field that has aliases: the best
    header found by the scan, when there is one. *)
Lemma fallback_choice (fileHeaders : list string) (f : string) :
  In f (map fst FIELD_PATTERNS) ->
  get (createFallbackMapping fileHeaders) f
  = (if truthy (fst (best_header (patterns_of f) fileHeaders Null 0%Q))
     then fst (best_header (patterns_of f) fileHeaders Null 0%Q) else Null).
Proof.
  intros Hin. unfold createFallbackMapping.
  change (fun (m : gmap string jsv) (entry : string * list string) =>
            let '(bestMatch, _) := best_header (snd entry) fileHeaders Null 0%Q in
            if truthy bestMatch then <[fst entry := bestMatch]> m else m)
    with (fallback_step fileHeaders).
  rewrite fallback_fold.
  - unfold patterns_of.
    cbn [map fst FIELD_PATTERNS] in Hin.
    repeat (destruct Hin as [<-|Hin]); try contradiction Hin;
      cbn [FIELD_PATTERNS List.find fst snd String.eqb Ascii.eqb Bool.eqb
           fmap option_fmap option_map default];
      match goal with
      | |- (if ?c then _ else ?g) = _ =>
          replace g with Null by (vm_compute; reflexivity); reflexivity
      end.
  - cbn [map fst FIELD_PATTERNS].
    repeat (apply List.NoDup_cons; [cbn [In]; intros H;
      repeat (destruct H as [H|H]; [discriminate H|]); exact H|]).
    apply List.NoDup_nil.
Qed.

(** C4.  When the collaborator's mapping covers fewer than 60% of the
    required fields of the schema, the suggested mapping keeps every entry
    the collaborator mapped to a header, and gives each field the
    collaborator left without one the fallback's choice when the fallback
    found one; every other entry is the collaborator's.  The fallback's
    choice for a field with aliases is the best header of the scan. *)
Theorem poor_coverage_merge (aiMapping : gmap string jsv)
    (fileHeaders : list string) :
  poor_coverage aiMapping = true ->
  let suggested := getSuggestedMapping (Ok aiMapping) fileHeaders in
  let fallback := createFallbackMapping fileHeaders in
  forall f,
    (truthy (get aiMapping f) = true -> suggested !! f = aiMapping !! f)
    /\ (truthy (get aiMapping f) = false -> truthy (get fallback f) = true ->
        suggested !! f = fallback !! f)
    /\ (truthy (get aiMapping f) = false -> truthy (get fallback f) = false ->
        suggested !! f = aiMapping !! f)
    /\ (In f (map fst FIELD_PATTERNS) ->
        get fallback f
        = if truthy (fst (best_header (patterns_of f) fileHeaders Null 0%Q))
          then fst (best_header (patterns_of f) fileHeaders Null 0%Q) else Null).
Proof.
  intros Hpoor suggested fallback f.
  subst suggested. unfold getSuggestedMapping. rewrite Hpoor.
  fold fallback. rewrite enhance_lookup.
  repeat split.
  - intros ->. reflexivity.
  - intros -> ->. reflexivity.
  - intros -> ->. reflexivity.
  - apply fallback_choice.
Qed.

Lemma poor_coverage_merge_witness :
  poor_coverage sample_aiMapping = true
  /\ getSuggestedMapping (Ok sample_aiMapping) sample_headers !! "a_party_id"
     = Some (Str "account")
  /\ getSuggestedMapping (Ok sample_aiMapping) sample_headers !! "dst_port"
     = Some (Str "Dest Port").
Proof.
  assert (H : poor_coverage sample_aiMapping = true) by (vm_compute; reflexivity).
  split; [exact H|].
  pose proof (poor_coverage_merge sample_aiMapping sample_headers H) as Hm.
  cbv zeta in Hm. split.
  - destruct (Hm "a_party_id") as [H1 _]. rewrite H1; vm_compute; reflexivity.
  - destruct (Hm "dst_port") as [_ [H2 _]]. rewrite H2; vm_compute; reflexivity.
Defined.

(** * Further properties of the code *)

(** ** The per-row operation and the run over a file *)










Lemma transform_counts (P : platform) (amb : ambient) (st : IPDRProcessor)
    (raw : gmap string string) :
  let st' := fst (_transform P amb st raw) in
  let out := snd (_transform P amb st raw) in
  recordCount st' = recordCount st + length out
  /\ recordCount st' + errorCount st' = S (recordCount st + errorCount st)
  /\ length (validationErrors st') + errorCount st
     <= errorCount st' + length (validationErrors st)
  /\ length out <= 1.
Proof.
  destruct (rejected P (mapping st) raw) eqn:E.
  - rewrite (transform_rejected _ _ _ _ E). cbn. rewrite length_app. cbn. lia.
  - rewrite (transform_accepted _ _ _ _ E).
    destruct (_recordToCsv _ _); cbn; lia.
Qed.

Lemma run_counts (P : platform) (rows : list (ambient * gmap string string)) :
  forall st : IPDRProcessor,
  let st' := fst (run P st rows) in
  let out := snd (run P st rows) in
  recordCount st' = recordCount st + length out
  /\ recordCount st' + errorCount st' = recordCount st + errorCount st + length rows
  /\ length (validationErrors st') + errorCount st
     <= errorCount st' + length (validationErrors st).
Proof.
  induction rows as [|[amb raw] rest IH]; intros st.
  - cbn. lia.
  - cbv zeta. rewrite run_cons. cbn [fst snd].
    destruct (transform_counts P amb st raw) as [H1 [H2 [H3 H4]]].
    destruct (IH (fst (_transform P amb st raw))) as [I1 [I2 I3]].
    rewrite length_app. cbn [length]. lia.
Qed.

Lemma run_mapping (P : platform) (rows : list (ambient * gmap string string)) :
  forall st : IPDRProcessor, mapping (fst (run P st rows)) = mapping st.
Proof.
  induction rows as [|[amb raw] rest IH]; intros st; [reflexivity|].
  rewrite run_cons. cbn [fst]. rewrite IH. apply transform_mapping.
Qed.

(** X2.  A run counts every row exactly once: the lines written are the
    rows counted in [recordCount], the two counters together grow by the
    number of rows, and the diagnostics never outnumber the errors. *)
Theorem run_accounting (P : platform) (m : gmap string jsv)
    (rows : list (ambient * gmap string string)) :
  let st' := fst (run P (new_IPDRProcessor m) rows) in
  let lines := snd (run P (new_IPDRProcessor m) rows) in
  recordCount st' = length lines
  /\ recordCount st' + errorCount st' = length rows
  /\ length (validationErrors st') <= errorCount st'
  /\ mapping st' = m.
Proof.
  destruct (run_counts P rows (new_IPDRProcessor m)) as [H1 [H2 H3]].
  cbn in H1, H2, H3. repeat split; try lia.
  apply (run_mapping P rows (new_IPDRProcessor m)).
Qed.

Lemma transform_new_diagnostic (P : platform) (amb : ambient) (st : IPDRProcessor)
    (raw : gmap string string) :
  validationErrors (fst (_transform P amb st raw))
  = validationErrors st ++
    (if rejected P (mapping st) raw
     then [ {| diag_record := recordCount st + 1;
               diag_errors :=
                 rv_errors (_validateRecord P (_extractMappedValues (mapping st) raw) raw);
               diag_rawRecord := raw |} ]
     else []).
Proof.
  destruct (rejected P (mapping st) raw) eqn:E.
  - now rewrite (transform_rejected _ _ _ _ E).
  - rewrite (transform_accepted _ _ _ _ E), app_nil_r.
    destruct (_recordToCsv _ _); reflexivity.
Qed.

Lemma rejected_errors (P : platform) (m : gmap string jsv) (raw : gmap string string) :
  rejected P m raw = true ->
  rv_errors (_validateRecord P (_extractMappedValues m raw) raw) <> [].
Proof.
  unfold rejected. intros H%negb_true_iff Hnil.
  unfold _validateRecord in H, Hnil. cbn [rv_isValid rv_errors] in H, Hnil.
  rewrite Hnil in H. discriminate H.
Qed.

Lemma run_diagnostics_origin (P : platform)
    (rows : list (ambient * gmap string string)) :
  forall st : IPDRProcessor,
  Forall (fun d =>
            In d (validationErrors st)
            \/ ((exists amb, In (amb, diag_rawRecord d) rows)
                /\ rejected P (mapping st) (diag_rawRecord d) = true
                /\ diag_errors d
                   = rv_errors (_validateRecord P
                       (_extractMappedValues (mapping st) (diag_rawRecord d))
                       (diag_rawRecord d))
                /\ recordCount st < diag_record d
                /\ diag_record d <= S (recordCount (fst (run P st rows)))))
         (validationErrors (fst (run P st rows))).
Proof.
  induction rows as [|[amb raw] rest IH]; intros st.
  - cbn. apply Forall_forall. intros d Hd. left. now apply list_elem_of_In.
  - rewrite run_cons. cbn [fst].
    specialize (IH (fst (_transform P amb st raw))).
    rewrite transform_mapping in IH.
    destruct (transform_counts P amb st raw) as [Hc _]. cbv zeta in Hc.
    destruct (run_counts P rest (fst (_transform P amb st raw))) as [Hr _].
    cbv zeta in Hr.
    eapply Forall_impl; [exact IH|]. cbn beta. intros d [Hold | Hnew].
    + rewrite transform_new_diagnostic in Hold. apply in_app_or in Hold.
      destruct Hold as [Hold | Hhere]; [now left | right].
      destruct (rejected P (mapping st) raw) eqn:E; [|contradiction Hhere].
      destruct Hhere as [<- | []]. cbn [diag_rawRecord diag_errors diag_record].
      repeat split; try lia.
      * exists amb. left. reflexivity.
      * exact E.
    + right. destruct Hnew as [[amb' Hin] [H1 [H2 [H3 H4]]]].
      repeat split; try assumption; try lia.
      exists amb'. right. exact Hin.
Qed.

(** X3.  After a run, every retained diagnostic belongs to a row of the
    file that data-level validation rejects; it holds that row and the
    reasons validation gave, at least one.  Its record number is at least 1
    and at most one more than the final [recordCount]: it counts accepted
    rows, not the position of the row in the file. *)
Theorem diagnostics_describe_rejected_rows (P : platform) (m : gmap string jsv)
    (rows : list (ambient * gmap string string)) :
  Forall (fun d =>
            (exists amb, In (amb, diag_rawRecord d) rows)
            /\ rejected P m (diag_rawRecord d) = true
            /\ diag_errors d
               = rv_errors (_validateRecord P
                   (_extractMappedValues m (diag_rawRecord d)) (diag_rawRecord d))
            /\ diag_errors d <> []
            /\ 1 <= diag_record d
            /\ diag_record d
               <= S (recordCount (fst (run P (new_IPDRProcessor m) rows))))
         (validationErrors (fst (run P (new_IPDRProcessor m) rows))).
Proof.
  eapply Forall_impl; [apply run_diagnostics_origin|]. cbn beta.
  intros d [[] | [Hin [Hrej [Herr [Hlo Hhi]]]]].
  cbn [mapping new_IPDRProcessor] in Hrej, Herr.
  repeat split; try assumption; try lia.
  rewrite Herr. now apply rejected_errors.
Qed.




(** ** MappingValidator: the counters of the report *)

Lemma mapped_truthy (m : gmap string jsv) (f : string) :
  (truthy (get m f) && negb (is_null (get m f))) = truthy (get m f).
Proof. destruct (get m f) as [| |s]; cbn; try reflexivity. apply andb_true_r. Qed.

(** X5.  In every report of [validateRequiredFields] the mapped required
    fields and the errors add up to the five required fields; the report is
    valid exactly when all five are counted as mapped; there are at most
    four warnings; and the header list passed in plays no part. *)
Theorem validateRequiredFields_counts (mapping : gmap string jsv)
    (fileHeaders : list string) :
  let report := validateRequiredFields mapping fileHeaders in
  requiredFieldsCount report = 5
  /\ mappedRequiredCount report + length (errors report) = requiredFieldsCount report
  /\ (isValid report = true <-> mappedRequiredCount report = requiredFieldsCount report)
  /\ length (warnings report) <= 4
  /\ report = validateRequiredFields mapping [].
Proof.
  intros report. subst report.
  unfold validateRequiredFields.
  cbn [requiredFieldsCount mappedRequiredCount errors isValid warnings].
  unfold REQUIRED_KEYS, REQUIRED_FIELDS, IMPORTANT_OPTIONAL.
  cbn [map fst]. rewrite !filter_cons, !filter_nil. cbn [fst].
  rewrite !unmapped_falsy, !mapped_truthy.
  split; [reflexivity|]. split; [|split; [|split; [|reflexivity]]].
  - destruct (truthy (get mapping "a_party_id")), (truthy (get mapping "src_ip")),
      (truthy (get mapping "dst_ip")), (truthy (get mapping "dst_port")),
      (truthy (get mapping "start_time")); reflexivity.
  - destruct (truthy (get mapping "a_party_id")), (truthy (get mapping "src_ip")),
      (truthy (get mapping "dst_ip")), (truthy (get mapping "dst_port")),
      (truthy (get mapping "start_time")); cbn; split; intros H;
      first [reflexivity | discriminate H].
  - rewrite length_app, length_map.
    assert (Hs : length (session_warning mapping) <= 1).
    { unfold session_warning. destruct (get mapping "a_party_id"); cbn; try lia.
      destruct (negb _); cbn; try lia.
      destruct (_ && _); cbn; lia. }
    set (k := length (session_warning mapping)) in *. clearbody k.
    destruct (truthy (get mapping "bytes_up")), (truthy (get mapping "bytes_down")),
      (truthy (get mapping "protocol")); vm_compute length; lia.
Qed.

(** ** [processFile] *)

Lemma isValid_required (m : gmap string jsv) (hs : list string) :
  isValid (validateRequiredFields m hs) = true
  <-> forall f, In f REQUIRED_KEYS -> truthy (get m f) = true.
Proof.
  rewrite isValid_errors.
  pose proof (errors_fields m hs) as Hf. split.
  - intros Hnil f Hin. rewrite Hnil in Hf. cbn [map] in Hf.
    apply not_false_iff_true. intros Hu.
    assert (Hin' : f ∈ filter (fun f => truthy (get m f) = false) REQUIRED_KEYS)
      by (apply list_elem_of_filter; split; [exact Hu | now apply list_elem_of_In]).
    rewrite <- Hf in Hin'. inversion Hin'.
  - intros Hall.
    destruct (filter (fun f => truthy (get m f) = false) REQUIRED_KEYS)
      as [|f l] eqn:Ef.
    + now apply map_eq_nil in Hf.
    + assert (Hin : f ∈ filter (fun f => truthy (get m f) = false) REQUIRED_KEYS)
        by (rewrite Ef; left).
      apply list_elem_of_filter in Hin. destruct Hin as [Hu Hin].
      apply list_elem_of_In in Hin. rewrite (Hall f Hin) in Hu. discriminate Hu.
Qed.

(** X6.  [processFile] refuses to start exactly when one of the five
    validated fields has no usable header in the confirmed mapping;
    otherwise its result accounts for every row of the file: processed plus
    errors is the number of rows, one line is written per processed row, and
    the diagnostics do not outnumber the errors. *)
Theorem processFile_outcome (P : platform) (confirmedMapping : gmap string jsv)
    (rows : list (ambient * gmap string string)) :
  match processFile P confirmedMapping rows with
  | Throw _ =>
      exists f, In f REQUIRED_KEYS /\ truthy (get confirmedMapping f) = false
  | Ok (r, lines) =>
      (forall f, In f REQUIRED_KEYS -> truthy (get confirmedMapping f) = true)
      /\ recordsProcessed r + res_errors r = length rows
      /\ length lines = recordsProcessed r
      /\ length (res_validationErrors r) <= res_errors r
      /\ lines = snd (run P (new_IPDRProcessor confirmedMapping) rows)
  end.
Proof.
  unfold processFile.
  pose proof (isValid_required confirmedMapping []) as Hv.
  destruct (isValid (validateRequiredFields confirmedMapping [])) eqn:E; cbn [negb].
  - destruct (run P (new_IPDRProcessor confirmedMapping) rows) as [st lines] eqn:Er.
    pose proof (run_counts P rows (new_IPDRProcessor confirmedMapping)) as Ha.
    cbv zeta in Ha. rewrite Er in Ha. cbn [fst snd] in Ha.
    destruct Ha as [H1 [H2 H3]].
    cbn in H1, H2, H3 |- *. repeat split; try lia.
    now apply Hv.
  - destruct (filter (fun f => truthy (get confirmedMapping f) = false) REQUIRED_KEYS)
      as [|f l] eqn:Ef.
    + exfalso. assert (Hall : forall f, In f REQUIRED_KEYS ->
                               truthy (get confirmedMapping f) = true).
      { intros f Hin. apply not_false_iff_true. intros Hu.
        assert (Hin' : f ∈ filter (fun f => truthy (get confirmedMapping f) = false)
                         REQUIRED_KEYS)
          by (apply list_elem_of_filter; split; [exact Hu | now apply list_elem_of_In]).
        rewrite Ef in Hin'. inversion Hin'. }
      apply Hv in Hall. discriminate Hall.
    + assert (Hin : f ∈ filter (fun f => truthy (get confirmedMapping f) = false)
                      REQUIRED_KEYS) by (rewrite Ef; left).
      apply list_elem_of_filter in Hin. destruct Hin as [Hu Hin].
      exists f. split; [now apply list_elem_of_In | exact Hu].
Qed.

(** ** Numbers: printing and parsing *)

Lemma digit_value_char (d : Z) :
  (0 <= d < 10)%Z -> digit_value (digit_char d) = Some d.
Proof.
  intros H.
  assert (Hd : (d = 0 \/ d = 1 \/ d = 2 \/ d = 3 \/ d = 4 \/ d = 5 \/ d = 6
                \/ d = 7 \/ d = 8 \/ d = 9)%Z) by lia.
  repeat (destruct Hd as [->|Hd]; [reflexivity|]). subst d. reflexivity.
Qed.

Lemma digit_char_plain (d : Z) :
  (0 <= d < 10)%Z ->
  is_space (digit_char d) = false
  /\ Ascii.eqb (digit_char d) "-" = false
  /\ Ascii.eqb (digit_char d) "+" = false
  /\ special (digit_char d) = false
  /\ is_digit (digit_char d) = true.
Proof.
  intros H.
  assert (Hd : (d = 0 \/ d = 1 \/ d = 2 \/ d = 3 \/ d = 4 \/ d = 5 \/ d = 6
                \/ d = 7 \/ d = 8 \/ d = 9)%Z) by lia.
  repeat (destruct Hd as [->|Hd]; [repeat split; reflexivity|]).
  subst d. repeat split; reflexivity.
Qed.

Lemma parse_digits_of (fuel : nat) :
  forall (n : Z) (acc : string),
  (0 <= n < 2 ^ Z.of_nat fuel)%Z -> (0 < fuel)%nat ->
  parse_digits 10 (digits_of fuel n acc) None = parse_digits 10 acc (Some n).
Proof.
  induction fuel as [|k IH]; intros n acc Hn Hf; [lia|].
  cbn [digits_of].
  assert (Hm : (0 <= n mod 10 < 10)%Z) by (apply Z.mod_pos_bound; lia).
  destruct (n <? 10)%Z eqn:E.
  - apply Z.ltb_lt in E. rewrite Z.mod_small by lia.
    cbn [parse_digits]. rewrite digit_value_char by lia.
    replace (n <? 10)%Z with true by (symmetry; apply Z.ltb_lt; lia).
    cbn [default id]. do 2 f_equal; lia.
  - apply Z.ltb_ge in E.
    assert (Hk : (0 < k)%nat).
    { destruct k; [|lia]. cbn in Hn. lia. }
    rewrite IH; [| |exact Hk].
    + cbn [parse_digits]. rewrite digit_value_char by lia.
      replace (n mod 10 <? 10)%Z with true by (symmetry; apply Z.ltb_lt; lia).
      cbn [default id]. rewrite <- (Z.div_mod n 10) by lia. reflexivity.
    + split; [apply Z.div_pos; lia|].
      rewrite Nat2Z.inj_succ, Z.pow_succ_r in Hn by lia.
      apply Z.div_lt_upper_bound; lia.
Qed.

Lemma digits_of_app (fuel : nat) :
  forall (n : Z) (acc rest : string),
  digits_of fuel n acc +:+ rest = digits_of fuel n (acc +:+ rest).
Proof.
  induction fuel as [|k IH]; intros n acc rest; [reflexivity|].
  cbn [digits_of]. destruct (n <? 10)%Z; [reflexivity|].
  rewrite IH. reflexivity.
Qed.

Lemma digits_of_head (fuel : nat) :
  forall (n : Z) (acc : string),
  (0 <= n)%Z ->
  exists d s, (0 <= d < 10)%Z /\ digits_of (S fuel) n acc = String (digit_char d) s.
Proof.
  induction fuel as [|k IH]; intros n acc Hn.
  - cbn [digits_of]. exists (n mod 10)%Z.
    assert (Hm : (0 <= n mod 10 < 10)%Z) by (apply Z.mod_pos_bound; lia).
    destruct (n <? 10)%Z; eauto.
  - change (digits_of (S (S k)) n acc)
      with (let acc' := String (digit_char (n mod 10)) acc in
            if (n <? 10)%Z then acc' else digits_of (S k) (n / 10) acc').
    cbv zeta.
    assert (Hm : (0 <= n mod 10 < 10)%Z) by (apply Z.mod_pos_bound; lia).
    destruct (n <? 10)%Z; [eauto|].
    apply IH. apply Z.div_pos; lia.
Qed.


Lemma log2_fuel (a : Z) :
  (0 <= a)%Z -> (0 <= a < 2 ^ Z.of_nat (S (Z.to_nat (Z.log2 a))))%Z.
Proof.
  intros Ha. split; [exact Ha|].
  rewrite Nat2Z.inj_succ, Z2Nat.id by apply Z.log2_nonneg.
  destruct (Z.eq_dec a 0%Z) as [->|Hne]; [reflexivity|].
  apply Z.log2_spec. lia.
Qed.

Lemma parseInt_unsigned (s : string) (d : Z) (t : string) :
  (0 <= d < 10)%Z -> s = String (digit_char d) t ->
  parseInt 10 s = parse_digits 10 s None.
Proof.
  intros Hd ->. destruct (digit_char_plain d Hd) as [H1 [H2 [H3 _]]].
  unfold parseInt. cbn [skip_spaces]. rewrite H1, H2, H3.
  cbn [Z.eqb orb andb].
  assert (Hone : forall o : option Z,
            match o with Some n => Some (1 * n)%Z | None => None end = o).
  { intros [n|]; [|reflexivity]. f_equal. lia. }
  destruct t as [|c1 r]; apply Hone.
Qed.

Lemma plain_tail (rest : string) (n : Z) :
  match rest with
  | EmptyString => True
  | String c _ => is_digit c = false
  end ->
  parse_digits 10 rest (Some n) = Some n.
Proof.
  destruct rest as [|c r]; [reflexivity|]. intros Hc. cbn [parse_digits].
  unfold digit_value. unfold is_digit in Hc.
  rewrite <- (N2Z.id (N_of_ascii c)) in Hc.
  set (z := Z.of_N (N_of_ascii c)) in *.
  assert (Hz : (0 <= z)%Z) by apply N2Z.is_nonneg.
  assert (Hnd : ((48 <=? z) && (z <=? 57))%Z = false).
  { apply andb_false_iff in Hc. apply andb_false_iff.
    destruct Hc as [Hc|Hc]; [left|right].
    - apply N.leb_gt in Hc. apply Z.leb_gt. lia.
    - apply N.leb_gt in Hc. apply Z.leb_gt. lia. }
  rewrite Hnd.
  destruct ((97 <=? z) && (z <=? 122))%Z eqn:E1.
  - apply andb_true_iff in E1. destruct E1 as [E1 _]. apply Z.leb_le in E1.
    replace (z - 87 <? 10)%Z with false by (symmetry; apply Z.ltb_ge; lia).
    reflexivity.
  - destruct ((65 <=? z) && (z <=? 90))%Z eqn:E2; [|reflexivity].
    apply andb_true_iff in E2. destruct E2 as [E2 _]. apply Z.leb_le in E2.
    replace (z - 55 <? 10)%Z with false by (symmetry; apply Z.ltb_ge; lia).
    reflexivity.
Qed.

Lemma parseInt_string_of_Z (n : Z) (rest : string) :
  match rest with
  | EmptyString => True
  | String c _ => is_digit c = false
  end ->
  parseInt 10 (string_of_Z n +:+ rest) = Some n.
Proof.
  intros Hrest. unfold string_of_Z.
  set (a := Z.abs n).
  assert (Ha : (0 <= a)%Z) by apply Z.abs_nonneg.
  destruct (digits_of_head (Z.to_nat (Z.log2 a)) a rest Ha) as [d [t [Hd Ht]]].
  assert (Hbody : parse_digits 10 (digits_of (S (Z.to_nat (Z.log2 a))) a rest) None
                  = Some a).
  { rewrite parse_digits_of; [now apply plain_tail | now apply log2_fuel | lia]. }
  destruct (n <? 0)%Z eqn:E.
  - apply Z.ltb_lt in E. rewrite append_cons, digits_of_app.
    change ("" +:+ rest) with rest.
    unfold parseInt. cbn [skip_spaces]. change (is_space "-") with false.
    cbv iota. rewrite Ascii.eqb_refl. cbn [Z.eqb orb andb].
    rewrite Ht in Hbody |- *.
    destruct t as [|c1 r]; cbn [Pos.eqb andb]; rewrite Hbody; f_equal; lia.
  - apply Z.ltb_ge in E. rewrite digits_of_app. change ("" +:+ rest) with rest.
    rewrite (parseInt_unsigned _ d t Hd Ht), Hbody. f_equal. lia.
Qed.



(** ** Service labels and ports *)

Lemma assoc_In (k : Z) (l : list (Z * string)) (v : string) :
  assoc k l = Some v -> In (k, v) l.
Proof.
  induction l as [|[k' v'] l IH]; [discriminate|].
  cbn [assoc]. destruct (k =? k')%Z eqn:E.
  - intros [= ->]. apply Z.eqb_eq in E. subst. now left.
  - intros H. right. now apply IH.
Qed.

Lemma parseInt_whole (n : Z) : parseInt 10 (string_of_Z n) = Some n.
Proof.
  rewrite <- (parseInt_string_of_Z n EmptyString I). f_equal.
  induction (string_of_Z n) as [|c s IH]; [reflexivity|].
  rewrite append_cons. now rewrite <- IH.
Qed.

Lemma service_label_number (P : platform) (n : Z) :
  getServiceLabel P (VNum (Some n)) = default "OTHER" (assoc n portMap).
Proof.
  unfold getServiceLabel, parseInt_of. cbn [ToString].
  now rewrite parseInt_whole.
Qed.

(** X8.  [getServiceLabel] answers UNKNOWN for a missing port (null,
    undefined, NaN); for a port number it answers the label of the table,
    or OTHER when the table has no entry for it, never UNKNOWN. *)
Theorem getServiceLabel_cases (P : platform) :
  getServiceLabel P VNull = "UNKNOWN"
  /\ getServiceLabel P VUndefined = "UNKNOWN"
  /\ getServiceLabel P (VNum None) = "UNKNOWN"
  /\ (forall n, getServiceLabel P (VNum (Some n)) = default "OTHER" (assoc n portMap))
  /\ (forall n, getServiceLabel P (VNum (Some n)) <> "UNKNOWN")
  /\ (forall n, (forall l, ~ In (n, l) portMap) ->
                getServiceLabel P (VNum (Some n)) = "OTHER")
  /\ (forall n l, getServiceLabel P (VNum (Some n)) = l -> l <> "OTHER" ->
                  In (n, l) portMap).
Proof.
  split; [reflexivity|]. split; [reflexivity|]. split; [reflexivity|].
  split; [apply service_label_number|]. split; [|split].
  - intros n. rewrite service_label_number.
    destruct (assoc n portMap) as [l|] eqn:E; [|discriminate].
    apply assoc_In in E. cbn [default from_option id]. intros ->.
    cbn in E. repeat (destruct E as [E|E]; [discriminate E|]). exact E.
  - intros n Hn. rewrite service_label_number.
    destruct (assoc n portMap) as [l|] eqn:E; [|reflexivity].
    apply assoc_In in E. now apply Hn in E.
  - intros n l. rewrite service_label_number.
    destruct (assoc n portMap) as [l'|] eqn:E; cbn [default from_option id].
    + intros <- _. now apply assoc_In.
    + intros <- H. now contradiction H.
Qed.






(** ** Protocol *)

Lemma upper_ascii_not_lower (c : ascii) : is_lower (upper_ascii c) = false.
Proof.
  destruct c as [[] [] [] [] [] [] [] []]; reflexivity.
Qed.

Lemma toUpperCase_no_lower (s : string) :
  string_exists is_lower (toUpperCase s) = false.
Proof.
  induction s as [|c s IH]; [reflexivity|].
  cbn [toUpperCase string_map string_exists].
  rewrite upper_ascii_not_lower. exact IH.
Qed.

(** X10.  The protocol of every record built by [_processRecord] is a
    string without lower-case letters: the cell in upper case when the
    protocol column is mapped and the cell is not empty, TCP otherwise. *)
Theorem protocol_is_upper_case (P : platform) (amb : ambient) (mv : MV.t)
    (rawRecord : gmap string string) :
  exists p,
    CR.protocol (_processRecord P amb mv rawRecord) = VStr p
    /\ string_exists is_lower p = false
    /\ p = (if truthy (MV.protocol mv)
            then toUpperCase (or_else (MV.protocol mv) "")
            else "TCP")
    /\ toUpperCase p = p.
Proof.
  exists (toUpperCase (or_else (MV.protocol mv) "TCP")).
  split; [reflexivity|]. split; [apply toUpperCase_no_lower|]. split.
  - unfold or_else. destruct (MV.protocol mv) as [| |s]; try reflexivity.
    destruct (truthy (Str s)); reflexivity.
  - generalize (or_else (MV.protocol mv) "TCP"). intros s.
    unfold toUpperCase.
    induction s as [|c s IH]; [reflexivity|].
    cbn [string_map]. rewrite IH. f_equal.
    destruct c as [[] [] [] [] [] [] [] []]; reflexivity.
Qed.

(** ** Edit distance and similarity *)

Lemma last_seq (n : nat) : List.last (seq 0 (S n)) 0 = n.
Proof.
  rewrite seq_S. cbn [Nat.add]. apply List.last_last.
Qed.

Lemma lev_rows_empty_str1 (str2 : string) :
  forall j x, lev_rows "" str2 (S j) [x]
              = [match str2 with EmptyString => x | _ => j + String.length str2 end].
Proof.
  induction str2 as [|c s IH]; intros j x; [reflexivity|].
  cbn [lev_rows lev_cells tl hd]. rewrite IH.
  destruct s; cbn [String.length]; f_equal; lia.
Qed.

Lemma lev_cells_bounded (c2 : ascii) (str1 : string) :
  forall (up : list nat) (diag left i j : nat),
  diag <= Nat.max i j ->
  bounded j (S i) up ->
  bounded (S j) (S i) (lev_cells c2 str1 up diag left).
Proof.
  induction str1 as [|c1 s IH]; intros up diag left i j Hd Hup; [exact I|].
  destruct up as [|u up']; [exact I|].
  cbn [lev_cells bounded] in *. destruct Hup as [Hu Hup'].
  split.
  - destruct (Ascii.eqb c1 c2); lia.
  - apply IH; [lia | exact Hup'].
Qed.

Lemma lev_cells_length (c2 : ascii) (str1 : string) :
  forall (up : list nat) (diag left : nat),
  length up = String.length str1 ->
  length (lev_cells c2 str1 up diag left) = String.length str1.
Proof.
  induction str1 as [|c1 s IH]; intros up diag left Hl; [reflexivity|].
  destruct up as [|u up']; [discriminate Hl|].
  cbn [lev_cells length String.length] in *. f_equal. apply IH. lia.
Qed.

Lemma lev_rows_bounded (str1 str2 : string) :
  forall (j : nat) (above : list nat),
  length above = S (String.length str1) ->
  bounded j 0 above ->
  let row := lev_rows str1 str2 (S j) above in
  length row = S (String.length str1)
  /\ bounded (j + String.length str2) 0 row.
Proof.
  induction str2 as [|c2 s IH]; intros j above Hl Hb.
  - cbn [lev_rows String.length]. rewrite Nat.add_0_r. auto.
  - cbn [lev_rows String.length]. cbv zeta.
    destruct above as [|a up]; [discriminate Hl|].
    cbn [tl hd length bounded] in *. destruct Hb as [Ha Hup].
    replace (j + S (String.length s)) with (S j + String.length s) by lia.
    apply IH.
    + cbn [length]. f_equal. apply lev_cells_length. lia.
    + cbn [bounded]. split; [lia|].
      apply lev_cells_bounded; [lia | exact Hup].
Qed.

Lemma bounded_last (j : nat) (l : list nat) :
  forall i, bounded j i l -> l <> [] ->
  List.last l 0 <= Nat.max (i + length l - 1) j.
Proof.
  induction l as [|x l IH]; intros i Hb Hne; [contradiction|].
  destruct l as [|y l'].
  - cbn in *. destruct Hb as [Hx _]. lia.
  - change (List.last (x :: y :: l') 0) with (List.last (y :: l') 0).
    cbn [bounded] in Hb. destruct Hb as [_ Hb].
    specialize (IH (S i) Hb ltac:(discriminate)). cbn [length] in *. lia.
Qed.

Lemma bounded_seq (n i : nat) : bounded 0 i (seq i n).
Proof.
  revert i. induction n as [|n IH]; intros i; [exact I|].
  cbn [seq bounded]. split; [lia | apply IH].
Qed.

Lemma levenshtein_bound (str1 str2 : string) :
  levenshteinDistance str1 str2
  <= Nat.max (String.length str1) (String.length str2).
Proof.
  unfold levenshteinDistance.
  destruct (lev_rows_bounded str1 str2 0 (seq 0 (S (String.length str1))))
    as [Hl Hb].
  - apply length_seq.
  - apply bounded_seq.
  - cbv zeta in Hl, Hb. cbn [Nat.add] in Hb.
    pose proof (bounded_last _ _ 0 Hb) as H.
    rewrite Hl in H. cbn [Nat.add Nat.sub] in H. rewrite Nat.sub_0_r in H.
    apply H. intros E. rewrite E in Hl. discriminate Hl.
Qed.

Lemma similarity_nonneg (str1 str2 : string) :
  (0 <= calculateSimilarity str1 str2)%Q.
Proof.
  unfold calculateSimilarity.
  set (longer := if (String.length str2 <? String.length str1)%nat then str1 else str2).
  set (shorter := if (String.length str2 <? String.length str1)%nat then str2 else str1).
  destruct (String.length longer =? 0)%nat eqn:E0; [discriminate|].
  pose proof (levenshtein_bound longer shorter) as Hb.
  assert (Hmax : Nat.max (String.length longer) (String.length shorter)
                 = String.length longer).
  { subst longer shorter.
    destruct (String.length str2 <? String.length str1)%nat eqn:E.
    - apply Nat.ltb_lt in E. lia.
    - apply Nat.ltb_ge in E. lia. }
  rewrite Hmax in Hb. unfold Qle. cbn [Qnum Qden]. lia.
Qed.

Lemma similarity_le_1 (str1 str2 : string) :
  (calculateSimilarity str1 str2 <= 1)%Q.
Proof.
  unfold calculateSimilarity.
  set (longer := if (String.length str2 <? String.length str1)%nat then str1 else str2).
  set (shorter := if (String.length str2 <? String.length str1)%nat then str2 else str1).
  destruct (String.length longer =? 0)%nat eqn:E0; [apply Qle_refl|].
  apply Nat.eqb_neq in E0.
  unfold Qle. cbn [Qnum Qden].
  rewrite Z.mul_1_r, Z.mul_1_l.
  rewrite <- positive_nat_Z, Nat2Pos.id by exact E0. lia.
Qed.

(** X11.  The matrix computation gives the length of the other string when
    one string is empty, and never more than the length of the longer
    string; so the similarity always lies between 0 and 1, and it is 1 for
    two empty strings. *)
Theorem similarity_range (str1 str2 : string) :
  levenshteinDistance str1 "" = String.length str1
  /\ levenshteinDistance "" str2 = String.length str2
  /\ levenshteinDistance str1 str2
     <= Nat.max (String.length str1) (String.length str2)
  /\ (0 <= calculateSimilarity str1 str2)%Q
  /\ (calculateSimilarity str1 str2 <= 1)%Q
  /\ calculateSimilarity "" "" = 1%Q.
Proof.
  split; [|split; [|split; [apply levenshtein_bound|split;
    [apply similarity_nonneg|split; [apply similarity_le_1|reflexivity]]]]].
  - unfold levenshteinDistance. cbn [lev_rows]. apply last_seq.
  - unfold levenshteinDistance. cbn [String.length seq].
    rewrite (lev_rows_empty_str1 str2 0 0). cbn [List.last].
    destruct str2; reflexivity.
Qed.

(** ** Scores *)

Lemma includes_empty (s : string) : includes s "" = true.
Proof. destruct s; reflexivity. Qed.

Lemma fuzzy_loop_range (h : string) (patterns : list string) :
  fuzzy_loop h patterns = 0%Q
  \/ ((7 # 10 < fuzzy_loop h patterns)%Q /\ (fuzzy_loop h patterns <= 1)%Q).
Proof.
  induction patterns as [|p rest IH]; [now left|].
  cbn [fuzzy_loop].
  destruct (String.eqb _ _); [right; split; [reflexivity | apply Qle_refl]|].
  destruct (includes _ _ || includes _ _); [right; split; [reflexivity | discriminate]|].
  destruct (Qgt_bool _ _) eqn:E; [|exact IH].
  right. split; [now apply Qgt_bool_true|]. apply similarity_le_1.
Qed.

(** X12.  A score of [fuzzyMatchField] is either 0 or above 0.7 and at
    most 1; so every score that is not 0 passes the 0.6 threshold of the
    fallback.  A header that normalizes to the empty string (an empty
    header, or one made of underscores, spaces and hyphens) scores 0.8
    against any alias list that starts with a real alias. *)
Theorem fuzzyMatchField_range (header : string) (patterns : list string) :
  (fuzzyMatchField header patterns = 0%Q
   \/ ((7 # 10 < fuzzyMatchField header patterns)%Q
       /\ (fuzzyMatchField header patterns <= 1)%Q))
  /\ (Qgt_bool (fuzzyMatchField header patterns) (6 # 10)
      = Qgt_bool (fuzzyMatchField header patterns) 0)
  /\ (forall p rest, patterns = p :: rest ->
        normalize header = "" -> normalize p <> "" ->
        fuzzyMatchField header patterns = (8 # 10)%Q).
Proof.
  split; [apply fuzzy_loop_range|]. split.
  - unfold fuzzyMatchField.
    destruct (fuzzy_loop_range (normalize header) patterns) as [-> | [Hlo _]];
      [reflexivity|].
    assert (H1 : Qgt_bool (fuzzy_loop (normalize header) patterns) (6 # 10) = true).
    { apply Qgt_bool_true. eapply Qlt_trans; [|exact Hlo]. reflexivity. }
    assert (H2 : Qgt_bool (fuzzy_loop (normalize header) patterns) 0 = true).
    { apply Qgt_bool_true. eapply Qlt_trans; [|exact Hlo]. reflexivity. }
    now rewrite H1, H2.
  - intros p rest -> Hh Hp. unfold fuzzyMatchField. cbn [fuzzy_loop].
    rewrite Hh. destruct (String.eqb "" (normalize p)) eqn:E.
    + apply String.eqb_eq in E. now contradiction Hp.
    + rewrite includes_empty, orb_true_r. reflexivity.
Qed.

Lemma fuzzyMatchField_range_witness :
  fuzzyMatchField "_ -" (patterns_of "dst_port") = (8 # 10)%Q.
Proof.
  destruct (fuzzyMatchField_range "_ -" (patterns_of "dst_port")) as [_ [_ H]].
  apply (H "b_party_port" (tl (patterns_of "dst_port"))).
  - reflexivity.
  - reflexivity.
  - discriminate.
Defined.

(** ** The fallback mapping *)

Lemma best_header_spec (patterns : list string) (fileHeaders : list string) :
  forall (b0 : jsv) (q0 : Q),
  let b := fst (best_header patterns fileHeaders b0 q0) in
  let q := snd (best_header patterns fileHeaders b0 q0) in
  (q0 <= q)%Q
  /\ (forall h, In h fileHeaders ->
        (6 # 10 < fuzzyMatchField h patterns)%Q ->
        (fuzzyMatchField h patterns <= q)%Q)
  /\ ((b = b0 /\ q = q0)
      \/ exists h, b = Str h /\ In h fileHeaders
                   /\ q = fuzzyMatchField h patterns
                   /\ (6 # 10 < q)%Q /\ (q0 < q)%Q).
Proof.
  induction fileHeaders as [|header rest IH]; intros b0 q0.
  - cbn. split; [apply Qle_refl|]. split; [intros h []|]. now left.
  - cbn [best_header].
    destruct (Qgt_bool (fuzzyMatchField header patterns) q0
              && Qgt_bool (fuzzyMatchField header patterns) (6 # 10)) eqn:E.
    + apply andb_true_iff in E. destruct E as [E1 E2].
      apply Qgt_bool_true in E1, E2.
      specialize (IH (Str header) (fuzzyMatchField header patterns)).
      cbv zeta in IH. destruct IH as [Hle [Hall Hch]].
      split; [apply Qlt_le_weak; eapply Qlt_le_trans; eauto|].
      split.
      * intros h [<-|Hin] Hh; [exact Hle | now apply Hall].
      * right. destruct Hch as [[-> ->] | [h [Hb [Hin [Hq [H6 Hgt]]]]]].
        -- exists header. repeat split; auto. now left.
        -- exists h. repeat split; auto; [now right|].
           eapply Qlt_trans; eauto.
    + specialize (IH b0 q0). cbv zeta in IH. destruct IH as [Hle [Hall Hch]].
      split; [exact Hle|]. split.
      * intros h [<-|Hin] Hh; [|now apply Hall].
        apply andb_false_iff in E. destruct E as [E|E].
        -- apply Qgt_bool_false in E. eapply Qle_trans; eauto.
        -- apply Qgt_bool_false in E. exfalso.
           apply (Qlt_not_le _ _ Hh). exact E.
      * destruct Hch as [Hsame | [h [Hb [Hin [Hq [H6 Hgt]]]]]]; [now left|].
        right. exists h. repeat split; auto. now right.
Qed.

Lemma init_schema (f : string) :
  get (fold_left (fun (m : gmap string jsv) f => <[f := Null]> m) schemaKeys ∅) f
  = if bool_decide (In f schemaKeys) then Null else Undefined.
Proof.
  unfold schemaKeys, schemaDefinition. cbn [map name fold_left].
  case_bool_decide as Hin.
  - cbn [In] in Hin.
    repeat (destruct Hin as [<-|Hin]; [vm_compute; reflexivity|]).
    contradiction Hin.
  - cbn [In] in Hin. unfold get.
    repeat (rewrite lookup_insert_ne by (intros E; apply Hin; subst f; auto 20)).
    rewrite lookup_empty.
    reflexivity.
Qed.

Lemma fallback_entry (fileHeaders : list string) (f : string) :
  get (createFallbackMapping fileHeaders) f
  = match List.find (fun e => String.eqb (fst e) f) FIELD_PATTERNS with
    | Some e =>
        if truthy (fst (best_header (snd e) fileHeaders Null 0%Q))
        then fst (best_header (snd e) fileHeaders Null 0%Q)
        else if bool_decide (In f schemaKeys) then Null else Undefined
    | None => if bool_decide (In f schemaKeys) then Null else Undefined
    end.
Proof.
  unfold createFallbackMapping.
  change (fun (m : gmap string jsv) (entry : string * list string) =>
            let '(bestMatch, _) := best_header (snd entry) fileHeaders Null 0%Q in
            if truthy bestMatch then <[fst entry := bestMatch]> m else m)
    with (fallback_step fileHeaders).
  rewrite fallback_fold.
  - rewrite init_schema. reflexivity.
  - cbn [map fst FIELD_PATTERNS].
    repeat (apply List.NoDup_cons; [cbn [In]; intros H;
      repeat (destruct H as [H|H]; [discriminate H|]); exact H|]).
    apply List.NoDup_nil.
Qed.

(** X13.  Every entry of the fallback mapping is null (undefined for a
    name outside the schema) or a non-empty header of the file; a header is
    chosen only for a field with aliases, scores above 0.6 against them, and
    no header of the file scores higher.  Without headers every schema
    field is null. *)
Theorem createFallbackMapping_entries (fileHeaders : list string) (f : string) :
  let entry := get (createFallbackMapping fileHeaders) f in
  (entry = Null \/ entry = Undefined
   \/ exists h, entry = Str h /\ h <> "" /\ In h fileHeaders
                /\ In f (map fst FIELD_PATTERNS)
                /\ (6 # 10 < fuzzyMatchField h (patterns_of f))%Q
                /\ forall h', In h' fileHeaders ->
                     (fuzzyMatchField h' (patterns_of f)
                      <= fuzzyMatchField h (patterns_of f))%Q)
  /\ (In f schemaKeys -> entry <> Undefined)
  /\ (In f schemaKeys -> get (createFallbackMapping []) f = Null).
Proof.
  intros entry. subst entry. rewrite !fallback_entry.
  destruct (List.find (fun e => String.eqb (fst e) f) FIELD_PATTERNS) as [e|] eqn:Ef.
  - pose proof (List.find_some _ _ Ef) as [Hin He].
    apply String.eqb_eq in He.
    assert (Hp : patterns_of f = snd e) by (unfold patterns_of; now rewrite Ef).
    pose proof (best_header_spec (snd e) fileHeaders Null 0%Q) as Hs.
    cbv zeta in Hs. destruct Hs as [Hle [Hall Hch]].
    destruct (truthy (fst (best_header (snd e) fileHeaders Null 0%Q))) eqn:Et.
    + split; [|split].
      * right. right.
        destruct Hch as [[Hb _] | [h [Hb [Hh [Hq [H6 _]]]]]].
        { rewrite Hb in Et. discriminate Et. }
        exists h. rewrite Hb in Et |- *. apply truthy_Str in Et.
        destruct Et as [h' [[= <-] Hne]].
        rewrite Hp. rewrite Hq in H6, Hall.
        repeat split; auto.
        -- rewrite <- He. now apply in_map.
        -- intros h' Hh'.
           destruct (Qlt_le_dec (6 # 10) (fuzzyMatchField h' (snd e))) as [Hgt|Hsmall].
           ++ now apply Hall.
           ++ eapply Qle_trans; [exact Hsmall|]. now apply Qlt_le_weak.
      * intros _ Hu. rewrite Hu in Et. discriminate Et.
      * intros Hk. cbn [best_header fst truthy].
        rewrite bool_decide_eq_true_2 by exact Hk. reflexivity.
    + case_bool_decide as Hk.
      * split; [now left|]. split; [discriminate|].
        intros _. reflexivity.
      * split; [right; now left|]. split; intros Hk'; now contradiction Hk.
  - case_bool_decide as Hk.
    + split; [now left|]. split; [discriminate | reflexivity].
    + split; [right; now left|]. split; intros Hk'; now contradiction Hk.
Qed.

Lemma createFallbackMapping_entries_witness :
  get (createFallbackMapping []) "dst_ip" = Null.
Proof.
  destruct (createFallbackMapping_entries [] "dst_ip") as [_ [_ H]].
  apply H. vm_compute. tauto.
Defined.

(** ** The suggestion *)

Lemma poor_coverage_count (aiMapping : gmap string jsv) :
  poor_coverage aiMapping
  = (length (filter (fun f => truthy (get aiMapping f) = true) requiredFields) <=? 2)%nat.
Proof.
  unfold poor_coverage. rewrite requiredFields_listed.
  rewrite !filter_cons, !filter_nil. unfold mapped. rewrite !mapped_truthy.
  destruct (truthy (get aiMapping "a_party_id")), (truthy (get aiMapping "start_time")),
    (truthy (get aiMapping "dst_ip")), (truthy (get aiMapping "dst_port"));
    vm_compute; reflexivity.
Qed.

(** X14.  The suggestion is enhanced by the fallback exactly when the
    collaborator mapped at most two of the four fields that the schema flags
    as required.  A collaborator mapping that passes [validateRequiredFields]
    is therefore returned as it is. *)
Theorem valid_suggestion_unchanged (aiMapping : gmap string jsv)
    (fileHeaders : list string) :
  poor_coverage aiMapping
  = (length (filter (fun f => truthy (get aiMapping f) = true)
               ["a_party_id"; "start_time"; "dst_ip"; "dst_port"]) <=? 2)%nat
  /\ (isValid (validateRequiredFields aiMapping fileHeaders) = true ->
      getSuggestedMapping (Ok aiMapping) fileHeaders = aiMapping).
Proof.
  split; [apply poor_coverage_count|].
  intros Hv. apply isValid_errors in Hv.
  pose proof (errors_fields aiMapping fileHeaders) as Hf.
  rewrite Hv in Hf. cbn [map] in Hf. symmetry in Hf.
  assert (Hall : forall f, In f REQUIRED_KEYS -> truthy (get aiMapping f) = true).
  { intros f Hin. apply not_false_iff_true. intros Hu.
    assert (Hin' : f ∈ filter (fun f => truthy (get aiMapping f) = false) REQUIRED_KEYS)
      by (apply list_elem_of_filter; split; [exact Hu | now apply list_elem_of_In]).
    rewrite Hf in Hin'. inversion Hin'. }
  unfold getSuggestedMapping. rewrite poor_coverage_count.
  change requiredFields with ["a_party_id"; "start_time"; "dst_ip"; "dst_port"].
  rewrite !filter_cons, !filter_nil.
  rewrite (Hall "a_party_id"), (Hall "start_time"), (Hall "dst_ip"), (Hall "dst_port");
    [reflexivity | | | |]; cbn; tauto.
Qed.

Lemma valid_suggestion_unchanged_witness :
  isValid (validateRequiredFields sample_mapping []) = true
  /\ getSuggestedMapping (Ok sample_mapping) sample_headers = sample_mapping.
Proof.
  assert (H : isValid (validateRequiredFields sample_mapping []) = true)
    by (vm_compute; reflexivity).
  split; [exact H|].
  destruct (valid_suggestion_unchanged sample_mapping sample_headers) as [_ Hu'].
  apply Hu'. vm_compute. reflexivity.
Defined.

(** ** The address check *)

Lemma append_nil_r (s : string) : s +:+ "" = s.
Proof. induction s as [|c s IH]; [reflexivity|]. rewrite append_cons. now rewrite IH. Qed.

Lemma append_assoc (a b c : string) : (a +:+ b) +:+ c = a +:+ (b +:+ c).
Proof.
  induction a as [|x a IH]; [reflexivity|]. rewrite !append_cons. now rewrite IH.
Qed.

Lemma matches_Cat (r1 r2 : re) (s : string) :
  matches (Cat r1 r2) s
  <-> exists s1 s2, s = s1 +:+ s2 /\ matches r1 s1 /\ matches r2 s2.
Proof.
  split.
  - intros H. inversion H; subst. eauto.
  - intros [s1 [s2 [-> [H1 H2]]]]. now constructor.
Qed.

Lemma nullable_matches (r : re) : nullable r = true <-> matches r "".
Proof.
  induction r as [|p|r1 IH1 r2 IH2|r1 IH1 r2 IH2]; cbn [nullable].
  - split; [constructor | reflexivity].
  - split; [discriminate | intros H; inversion H].
  - rewrite andb_true_iff, IH1, IH2. split.
    + intros [H1 H2]. apply (matches_cat r1 r2 "" "" H1 H2).
    + intros H. apply matches_Cat in H. destruct H as [s1 [s2 [E [H1 H2]]]].
      destruct s1; [|discriminate E]. destruct s2; [|discriminate E]. auto.
  - rewrite orb_true_iff, IH1, IH2. split.
    + intros [H|H]; [now apply matches_alt_l | now apply matches_alt_r].
    + intros H. inversion H; subst; auto.
Qed.

Lemma nalt_matches (a b : nre) (s : string) :
  (exists r, nalt a b = Re r /\ matches r s)
  <-> (exists x, a = Re x /\ matches x s) \/ (exists y, b = Re y /\ matches y s).
Proof.
  destruct a as [|x], b as [|y]; cbn [nalt]; split.
  - intros [r [H _]]. discriminate H.
  - intros [[r [H _]]|[r [H _]]]; discriminate H.
  - intros [r [[= <-] H]]. right. eauto.
  - intros [[r [H _]]|[r [[= <-] H]]]; [discriminate H | eauto].
  - intros [r [[= <-] H]]. left. eauto.
  - intros [[r [[= <-] H]]|[r [H _]]]; [eauto | discriminate H].
  - intros [r [[= <-] H]]. inversion H; subst; [left | right]; eauto.
  - intros [[r [[= <-] H]]|[r [[= <-] H]]]; eexists; split; try reflexivity;
      [now apply matches_alt_l | now apply matches_alt_r].
Qed.

Lemma ncat_matches (a : nre) (r2 : re) (s : string) :
  (exists r, ncat a r2 = Re r /\ matches r s)
  <-> exists x s1 s2, a = Re x /\ s = s1 +:+ s2 /\ matches x s1 /\ matches r2 s2.
Proof.
  destruct a as [|x]; cbn [ncat]; split.
  - intros [r [H _]]. discriminate H.
  - intros [x [s1 [s2 [H _]]]]. discriminate H.
  - intros [r [[= <-] H]]. inversion H; subst. eauto 10.
  - intros [x' [s1 [s2 [[= <-] [-> [H1 H2]]]]]]. eexists. split; [reflexivity|].
    now constructor.
Qed.

Lemma deriv_matches (r : re) :
  forall (c : ascii) (s : string),
  matches r (String c s) <-> exists r', deriv c r = Re r' /\ matches r' s.
Proof.
  induction r as [|p|r1 IH1 r2 IH2|r1 IH1 r2 IH2]; intros c s; cbn [deriv].
  - split; [intros H; inversion H | intros [r' [H _]]; discriminate H].
  - split.
    + intros H. inversion H; subst. exists Eps.
      match goal with Hp : p c = true |- _ => rewrite Hp end.
      split; [reflexivity | constructor].
    + intros [r' [H Hm]]. destruct (p c) eqn:E; [|discriminate H].
      injection H as <-. inversion Hm; subst. now constructor.
  - rewrite nalt_matches, ncat_matches. split.
    + intros H. apply matches_Cat in H. destruct H as [s1 [s2 [E [H1 H2]]]].
      destruct s1 as [|c1 s1'].
      * right. change ("" +:+ s2) with s2 in E. subst s2.
        apply nullable_matches in H1. rewrite H1. now apply IH2.
      * left. rewrite append_cons in E. injection E as -> ->.
        apply IH1 in H1. destruct H1 as [x [Hx Hm]]. eauto 10.
    + intros [[x [s1 [s2 [Hx [-> [H1 H2]]]]]] | [y [Hy Hm]]].
      * change (String c (s1 +:+ s2)) with (String c s1 +:+ s2).
        constructor; [|exact H2]. apply IH1. eauto.
      * destruct (nullable r1) eqn:En; [|discriminate Hy].
        change (String c s) with ("" +:+ String c s).
        constructor; [now apply nullable_matches|]. apply IH2. eauto.
  - rewrite nalt_matches. split.
    + intros H. inversion H; subst; [left; now apply IH1 | right; now apply IH2].
    + intros [H|H]; [apply matches_alt_l, IH1 | apply matches_alt_r, IH2]; exact H.
Qed.

Lemma re_test_matches (s : string) :
  forall r, re_test r s = true <-> matches r s.
Proof.
  induction s as [|c s IH]; intros r; cbn [re_test].
  - apply nullable_matches.
  - rewrite deriv_matches. destruct (deriv c r) as [|r'].
    + split; [discriminate | intros [x [H _]]; discriminate H].
    + rewrite IH. split; [eauto|]. intros [x [[= <-] H]]. exact H.
Qed.

Lemma matches_Eps (s : string) : matches Eps s <-> s = "".
Proof. split; [intros H; now inversion H | intros ->; constructor]. Qed.

Lemma matches_chr (c : ascii) (s : string) :
  matches (chr c) s <-> s = String c "".
Proof.
  unfold chr. split.
  - intros H. inversion H as [|p c' Hp| | |]; subst.
    apply Ascii.eqb_eq in Hp. now subst.
  - intros ->. constructor. apply Ascii.eqb_refl.
Qed.

Lemma string_exists_app (p : ascii -> bool) (a b : string) :
  string_exists p (a +:+ b) = string_exists p a || string_exists p b.
Proof.
  induction a as [|c a IH]; [reflexivity|].
  rewrite append_cons. cbn [string_exists]. rewrite IH. apply orb_assoc.
Qed.

Lemma ipv6_has_colon (ip : string) :
  re_test ipv6Regex ip = true -> includes ip ":" = true.
Proof.
  rewrite re_test_matches. unfold ipv6Regex. cbn [times].
  rewrite matches_Cat. intros [s1 [s2 [-> [H1 _]]]].
  apply matches_Cat in H1. destruct H1 as [a [b [-> [Ha _]]]].
  apply matches_Cat in Ha. destruct Ha as [h [k [-> [_ Hk]]]].
  apply matches_chr in Hk. subst k.
  change ":" with (String ":"%char ""). rewrite includes_char.
  rewrite !string_exists_app. cbn [string_exists]. rewrite Ascii.eqb_refl.
  rewrite orb_true_r. reflexivity.
Qed.

(** Digits. *)

Lemma is_digit_chars (c : ascii) : is_digit c = true -> In c digit_chars.
Proof.
  destruct c as [[] [] [] [] [] [] [] []]; intros H;
    first [discriminate H | cbn; tauto].
Qed.

Lemma rng_is_digit (lo hi c : ascii) :
  (48 <= N_of_ascii lo)%N -> (N_of_ascii hi <= 57)%N ->
  (N_of_ascii lo <=? N_of_ascii c)%N && (N_of_ascii c <=? N_of_ascii hi)%N = true ->
  is_digit c = true.
Proof.
  intros Hlo Hhi H. apply andb_true_iff in H. destruct H as [H1 H2].
  apply N.leb_le in H1, H2. unfold is_digit.
  apply andb_true_iff. split; apply N.leb_le; lia.
Qed.

Lemma matches_rng_digit (lo hi : ascii) (s : string) :
  (48 <= N_of_ascii lo)%N -> (N_of_ascii hi <= 57)%N ->
  matches (rng lo hi) s -> exists c, s = String c "" /\ is_digit c = true.
Proof.
  intros Hlo Hhi H. inversion H as [|p c Hp| | |]; subst.
  exists c. split; [reflexivity|]. now apply (rng_is_digit lo hi).
Qed.

Lemma matches_Opt (r : re) (s : string) :
  matches (Opt r) s <-> matches r s \/ s = "".
Proof.
  unfold Opt. split.
  - intros H. inversion H; subst; [now left | right].
    now apply matches_Eps.
  - intros [H| ->]; [now apply matches_alt_l | apply matches_alt_r; constructor].
Qed.

Lemma octet_digits (o : string) :
  matches octet o ->
  string_forall is_digit o = true
  /\ (1 <= String.length o <= 3)%nat.
Proof.
  assert (D : forall lo hi s, (48 <= N_of_ascii lo)%N -> (N_of_ascii hi <= 57)%N ->
                matches (rng lo hi) s ->
                string_forall is_digit s = true /\ String.length s = 1%nat).
  { intros lo hi s Hlo Hhi H.
    destruct (matches_rng_digit lo hi s Hlo Hhi H) as [c [-> Hc]].
    cbn. now rewrite Hc. }
  assert (C : forall c s, is_digit c = true -> matches (chr c) s ->
                string_forall is_digit s = true /\ String.length s = 1%nat).
  { intros c s Hc H. apply matches_chr in H. subst s. cbn. now rewrite Hc. }
  assert (A : forall a b, string_forall is_digit (a +:+ b)
                          = string_forall is_digit a && string_forall is_digit b).
  { induction a as [|x a IH]; intros b; [reflexivity|].
    rewrite append_cons. cbn [string_forall]. rewrite IH. apply andb_assoc. }
  assert (L : forall a b, String.length (a +:+ b) = (String.length a + String.length b)%nat).
  { induction a as [|x a IH]; intros b; [reflexivity|].
    rewrite append_cons. cbn [String.length]. now rewrite IH. }
  unfold octet, digit. intros H.
  inversion H as [| | |? ? ? H1|? ? ? H1]; subst; clear H.
  - apply matches_Cat in H1. destruct H1 as [a [b [-> [Ha Hb]]]].
    apply matches_Cat in Hb. destruct Hb as [b1 [b2 [-> [Hb1 Hb2]]]].
    apply (C "2"%char) in Ha; [|reflexivity].
    apply (C "5"%char) in Hb1; [|reflexivity].
    apply D in Hb2; [|cbn; lia|cbn; lia].
    rewrite !A, !L. destruct Ha as [-> ->], Hb1 as [-> ->], Hb2 as [-> ->].
    split; [reflexivity | lia].
  - inversion H1 as [| | |? ? ? H2|? ? ? H2]; subst; clear H1.
    + apply matches_Cat in H2. destruct H2 as [a [b [-> [Ha Hb]]]].
      apply matches_Cat in Hb. destruct Hb as [b1 [b2 [-> [Hb1 Hb2]]]].
      apply (C "2"%char) in Ha; [|reflexivity].
      apply D in Hb1; [|cbn; lia|cbn; lia].
      apply D in Hb2; [|cbn; lia|cbn; lia].
      rewrite !A, !L. destruct Ha as [-> ->], Hb1 as [-> ->], Hb2 as [-> ->].
      split; [reflexivity | lia].
    + apply matches_Cat in H2. destruct H2 as [a [b [-> [Ha Hb]]]].
      apply matches_Cat in Hb. destruct Hb as [b1 [b2 [-> [Hb1 Hb2]]]].
      apply D in Hb1; [|cbn; lia|cbn; lia].
      rewrite !A, !L. destruct Hb1 as [-> ->].
      apply matches_Opt in Ha. apply matches_Opt in Hb2.
      destruct Ha as [Ha| ->]; [apply D in Ha; [|cbn; lia|cbn; lia];
                                destruct Ha as [-> ->]|];
        (destruct Hb2 as [Hb2| ->]; [apply D in Hb2; [|cbn; lia|cbn; lia];
                                     destruct Hb2 as [-> ->]|]);
        cbn; split; try reflexivity; lia.
Qed.

Lemma digit_string_listed (o : string) :
  string_forall is_digit o = true -> (1 <= String.length o <= 3)%nat ->
  In o digit_strings.
Proof.
  intros Hd Hl. unfold digit_strings.
  assert (L1 : forall c, In c digit_chars -> In (String c "") digit_strings1).
  { intros c Hc. apply (List.in_map (fun c => String c "") digit_chars c Hc). }
  destruct o as [|c1 [|c2 [|c3 [|c4 o]]]]; cbn [String.length] in Hl; try lia;
    cbn [string_forall] in Hd;
    repeat (apply andb_true_iff in Hd; destruct Hd as [?%is_digit_chars Hd]).
  - apply in_or_app. left. now apply L1.
  - apply in_or_app. right. apply in_or_app. left.
    unfold digit_strings2. apply List.in_flat_map. exists c1. split; [assumption|].
    apply (List.in_map (String c1)). now apply L1.
  - apply in_or_app. right. apply in_or_app. right.
    unfold digit_strings3. apply List.in_flat_map. exists c1. split; [assumption|].
    apply (List.in_map (String c1)).
    unfold digit_strings2. apply List.in_flat_map. exists c2. split; [assumption|].
    apply (List.in_map (String c2)). now apply L1.
Qed.

Lemma octet_table :
  List.forallb (fun o => Bool.eqb (re_test octet o) (octet_ok o)) digit_strings = true.
Proof. vm_compute. reflexivity. Qed.

Lemma re_test_octet (o : string) : re_test octet o = octet_ok o.
Proof.
  destruct (string_forall is_digit o
            && ((1 <=? String.length o)%nat && (String.length o <=? 3)%nat)) eqn:E.
  - apply andb_true_iff in E. destruct E as [Hd Hl].
    apply andb_true_iff in Hl. destruct Hl as [H1 H3].
    apply Nat.leb_le in H1, H3.
    pose proof (digit_string_listed o Hd (conj H1 H3)) as Hin.
    pose proof (proj1 (List.forallb_forall _ _) octet_table o Hin) as Heq.
    now apply Bool.eqb_prop in Heq.
  - assert (Hok : octet_ok o = false).
    { unfold octet_ok. apply andb_false_iff in E. destruct E as [E|E].
      - rewrite E. rewrite andb_false_r. reflexivity.
      - rewrite E. reflexivity. }
    rewrite Hok. apply not_true_iff_false. intros Ht.
    apply re_test_matches, octet_digits in Ht. destruct Ht as [Hd [H1 H3]].
    rewrite Hd in E. apply Nat.leb_le in H1, H3. rewrite H1, H3 in E.
    discriminate E.
Qed.

Lemma ipv4_dotted_quad (ip : string) :
  re_test ipv4Regex ip = true <-> dotted_quad ip.
Proof.
  rewrite re_test_matches. unfold ipv4Regex, dotted_quad. cbn [times]. split.
  - intros H. apply matches_Cat in H. destruct H as [s123 [d [-> [H Hd]]]].
    apply matches_Cat in H. destruct H as [s1 [s23 [-> [H1 H]]]].
    apply matches_Cat in H. destruct H as [s2 [s3e [-> [H2 H]]]].
    apply matches_Cat in H. destruct H as [s3 [e [-> [H3 He]]]].
    apply matches_Eps in He. subst e.
    apply matches_Cat in H1. destruct H1 as [a [p1 [-> [Ha Hp1]]]].
    apply matches_Cat in H2. destruct H2 as [b [p2 [-> [Hb Hp2]]]].
    apply matches_Cat in H3. destruct H3 as [c [p3 [-> [Hc Hp3]]]].
    apply matches_chr in Hp1, Hp2, Hp3. subst p1 p2 p3.
    exists a, b, c, d.
    rewrite <- !re_test_octet. rewrite !re_test_matches.
    split; [|auto]. rewrite append_nil_r, !append_assoc. reflexivity.
  - intros [a [b [c [d [-> [Ha [Hb [Hc Hd]]]]]]]].
    rewrite <- re_test_octet, re_test_matches in Ha, Hb, Hc, Hd.
    replace (a +:+ "." +:+ b +:+ "." +:+ c +:+ "." +:+ d)
      with (((a +:+ ".") +:+ ((b +:+ ".") +:+ ((c +:+ ".") +:+ ""))) +:+ d)
      by (rewrite append_nil_r, !append_assoc; reflexivity).
    repeat (constructor; try assumption); apply matches_chr; reflexivity.
Qed.

(** X15.  [_isValidIP] accepts exactly the dotted quads of four numbers
    from 0 to 255, each written with one to three digits, and every string
    that holds a colon; the full IPv6 pattern adds nothing to the colon
    test. *)
Theorem isValidIP_characterized (ip : string) :
  (_isValidIP ip = true <-> dotted_quad ip \/ includes ip ":" = true)
  /\ (re_test ipv6Regex ip = true -> includes ip ":" = true)
  /\ (re_test ipv4Regex ip = true -> includes ip ":" = false).
Proof.
  split; [|split; [apply ipv6_has_colon|]].
  - unfold _isValidIP. rewrite !orb_true_iff, ipv4_dotted_quad. split.
    + intros [[H|H]|H]; auto. right. now apply ipv6_has_colon.
    + intros [H|H]; auto.
  - rewrite ipv4_dotted_quad. intros [a [b [c [d [-> [Ha [Hb [Hc Hd]]]]]]]].
    change ":" with (String ":"%char ""). rewrite includes_char.
    rewrite !string_exists_app.
    assert (Hno : forall o, octet_ok o = true -> string_exists (Ascii.eqb ":") o = false).
    { intros o Ho. unfold octet_ok in Ho.
      apply andb_true_iff in Ho. destruct Ho as [Ho _].
      apply andb_true_iff in Ho. destruct Ho as [_ Ho].
      induction o as [|x o IH]; [reflexivity|].
      cbn [string_forall string_exists] in *.
      apply andb_true_iff in Ho. destruct Ho as [Hx Ho].
      rewrite (IH Ho), orb_false_r.
      destruct x as [[] [] [] [] [] [] [] []]; first [discriminate Hx | reflexivity]. }
    rewrite (Hno a Ha), (Hno b Hb), (Hno c Hc), (Hno d Hd). reflexivity.
Qed.

(** ** The encoder, line by line *)

Lemma prepend_empty (fs : list string) : prepend "" fs = fs.
Proof. destruct fs; reflexivity. Qed.

Lemma prepend_cons (c : ascii) (f : string) (fs : list string) :
  prepend (String c f) fs = prepend (String c "") (prepend f fs).
Proof. destruct fs; reflexivity. Qed.

Lemma fmap_prepend_cons (c : ascii) (f : string) (o : option (list string)) :
  prepend (String c f) <$> o = prepend (String c "") <$> (prepend f <$> o).
Proof. destruct o as [fs|]; [|reflexivity]. cbn. f_equal. apply prepend_cons. Qed.

Lemma fmap_prepend_empty (o : option (list string)) : prepend "" <$> o = o.
Proof. destruct o as [fs|]; [|reflexivity]. cbn. f_equal. apply prepend_empty. Qed.

Lemma after_field (k : string) :
  separator_first k ->
  csv_decode InPlain k = csv_decode AtStart k
  /\ csv_decode AfterQuote k = csv_decode AtStart k.
Proof.
  intros [c [k' [-> [-> | ->]]]]; split; reflexivity.
Qed.

Lemma special_false (c : ascii) :
  special c = false ->
  Ascii.eqb c dquote = false /\ Ascii.eqb c comma = false
  /\ Ascii.eqb c newline = false.
Proof.
  unfold special. intros H.
  apply orb_false_iff in H. destruct H as [H H3].
  apply orb_false_iff in H. destruct H as [H1 H2]. auto.
Qed.

Lemma decode_plain_field (f k : string) :
  string_exists special f = false ->
  csv_decode InPlain (f +:+ k) = prepend f <$> csv_decode InPlain k.
Proof.
  induction f as [|c f IH]; intros Hf.
  - change ("" +:+ k) with k. now rewrite fmap_prepend_empty.
  - cbn [string_exists] in Hf. apply orb_false_iff in Hf. destruct Hf as [Hc Hf].
    destruct (special_false c Hc) as [H1 [H2 H3]].
    rewrite append_cons. cbn [csv_decode]. rewrite H1, H2, H3.
    rewrite (IH Hf). symmetry. apply fmap_prepend_cons.
Qed.

Lemma decode_plain_start (f k : string) :
  string_exists special f = false -> separator_first k ->
  csv_decode AtStart (f +:+ k) = prepend f <$> csv_decode AtStart k.
Proof.
  intros Hf Hk. destruct (after_field k Hk) as [Hp _].
  destruct f as [|c f].
  - change ("" +:+ k) with k. now rewrite fmap_prepend_empty.
  - cbn [string_exists] in Hf. apply orb_false_iff in Hf. destruct Hf as [Hc Hf].
    destruct (special_false c Hc) as [H1 [H2 H3]].
    rewrite append_cons. cbn [csv_decode]. rewrite H1, H2, H3.
    rewrite (decode_plain_field f k Hf), Hp. symmetry. apply fmap_prepend_cons.
Qed.

Lemma decode_quoted_body (f k : string) :
  csv_decode InQuoted (double_quotes f +:+ dq +:+ k)
  = prepend f <$> csv_decode AfterQuote k.
Proof.
  induction f as [|c f IH].
  - change (double_quotes "" +:+ dq +:+ k) with (String dquote k).
    cbn [csv_decode]. rewrite ?Ascii.eqb_refl. now rewrite fmap_prepend_empty.
  - cbn [double_quotes]. destruct (Ascii.eqb c dquote) eqn:E.
    + apply Ascii.eqb_eq in E. subst c. rewrite !append_cons.
      cbn [csv_decode]. rewrite !Ascii.eqb_refl, IH.
      symmetry. apply fmap_prepend_cons.
    + rewrite append_cons. cbn [csv_decode]. rewrite E, IH.
      symmetry. apply fmap_prepend_cons.
Qed.

Lemma decode_field (f k : string) :
  separator_first k ->
  csv_decode AtStart (encode_text f +:+ k) = prepend f <$> csv_decode AtStart k.
Proof.
  intros Hk. unfold encode_text. destruct (needs_quoting f) eqn:E.
  - rewrite quoted_cons, append_cons. cbn [csv_decode]. rewrite Ascii.eqb_refl.
    rewrite append_assoc, decode_quoted_body.
    now destruct (after_field k Hk) as [_ ->].
  - rewrite needs_quoting_special in E. now apply decode_plain_start.
Qed.

Lemma decode_fields (texts : list string) :
  texts <> [] ->
  csv_decode AtStart (join "," (List.map encode_text texts) +:+ nl) = Some texts.
Proof.
  induction texts as [|f rest IH]; intros Hne; [contradiction|].
  destruct rest as [|g rest'].
  - cbn [List.map join]. rewrite decode_field.
    + cbn. now rewrite append_nil_r.
    + exists newline, "". auto.
  - change (join "," (List.map encode_text (f :: g :: rest')))
      with (encode_text f +:+ "," +:+ join "," (List.map encode_text (g :: rest'))).
    rewrite !append_assoc. rewrite decode_field.
    + change ("," +:+ join "," (List.map encode_text (g :: rest')) +:+ nl)
        with (String comma (join "," (List.map encode_text (g :: rest')) +:+ nl)).
      cbn [csv_decode]. change (Ascii.eqb comma dquote) with false.
      rewrite Ascii.eqb_refl. cbv iota.
      rewrite IH by discriminate. cbn. now rewrite append_nil_r.
    + exists comma. eexists. split; [reflexivity | auto].
Qed.

Lemma toCsv_encode_text (P : platform) (v : value) (e : string) :
  (forall t, needs_quoting (Date_toISOString P t) = false) ->
  toCsv P v = Ok e -> e = encode_text (column_text P v).
Proof.
  intros Hiso. unfold encode_text.
  destruct v as [| |[n|]|s|[t|]]; cbn [toCsv column_text ToString].
  - now intros [= <-].
  - now intros [= <-].
  - destruct (needs_quoting (string_of_Z n)); now intros [= <-].
  - now intros [= <-].
  - destruct (needs_quoting s); now intros [= <-].
  - rewrite Hiso. now intros [= <-].
  - discriminate.
Qed.

(** X16.  When the platform's ISO form of a date holds no comma, quote or
    newline, every line that [_recordToCsv] produces reads back, by the CSV
    rule, as exactly fourteen fields: the texts of the fourteen columns in
    the fixed order, whatever commas, quotes and newlines the cells hold. *)
Theorem recordToCsv_reads_back (P : platform) (r : CR.t) (line : string) :
  (forall t, needs_quoting (Date_toISOString P t) = false) ->
  _recordToCsv P r = Ok line ->
  csv_decode_line line = Some (List.map (column_text P) (csv_columns r))
  /\ length (List.map (column_text P) (csv_columns r)) = 14.
Proof.
  intros Hiso Hline. split; [|reflexivity].
  apply recordToCsv_Ok in Hline. destruct Hline as [fields [Hf ->]].
  assert (Hfields : fields = List.map encode_text (List.map (column_text P) (csv_columns r))).
  { clear -Hf Hiso. induction Hf as [|v e vs es Hv _ IH]; [reflexivity|].
    cbn [List.map]. f_equal; [now apply toCsv_encode_text | exact IH]. }
  rewrite Hfields. unfold csv_decode_line. apply decode_fields. discriminate.
Qed.

Lemma sample_iso_plain (t : Z) :
  needs_quoting (Date_toISOString sample_platform t) = false.
Proof.
  cbn [Date_toISOString sample_platform].
  destruct (t =? 1704067200000)%Z; [reflexivity|].
  destruct (t =? 1704067201500)%Z; reflexivity.
Qed.

Lemma recordToCsv_reads_back_witness :
  exists line,
    _recordToCsv sample_platform
      (_processRecord sample_platform sample_ambient
         (_extractMappedValues sample_mapping timed_row) timed_row) = Ok line
    /\ csv_decode_line line
       = Some [ "919876543210"; "2024-01-01T00:00:00.000Z";
                "2024-01-01T00:00:01.500Z"; "1500"; ""; ""; "10.0.0.1"; "";
                "93.184.216.34"; "443"; "UDP"; "HTTPS/WEB"; "0"; "0" ].
Proof.
  destruct (_recordToCsv sample_platform
      (_processRecord sample_platform sample_ambient
         (_extractMappedValues sample_mapping timed_row) timed_row))
    as [line|e] eqn:Hl; [|vm_compute in Hl; discriminate Hl].
  exists line. split; [reflexivity|].
  destruct (recordToCsv_reads_back sample_platform _ _ sample_iso_plain Hl)
    as [Hd _].
  rewrite Hd. vm_compute. reflexivity.
Defined.

(** ** Pre-flight checks *)

Lemma has_header_In (fileHeaders : list string) (h : string) :
  has_header fileHeaders h = true <-> In h fileHeaders.
Proof.
  unfold has_header. rewrite existsb_exists. split.
  - intros [x [Hin Hx]]. apply String.eqb_eq in Hx. now subst.
  - intros Hin. exists h. split; [exact Hin | apply String.eqb_refl].
Qed.

Lemma column_errors_nil (entries : list (string * jsv)) (fileHeaders : list string) :
  column_errors entries fileHeaders = []
  <-> forall f h, In (f, Str h) entries -> h <> "" -> In h fileHeaders.
Proof.
  unfold column_errors. induction entries as [|[f v] rest IH]; cbn [List.flat_map].
  - split; [intros _ f h [] | reflexivity].
  - cbn [fst snd]. split.
    + intros H. apply app_eq_nil in H. destruct H as [Hhd Htl].
      intros f' h [[= <- ->]|Hin] Hne.
      * assert (Ht : truthy (Str h) = true) by (apply truthy_Str; eauto).
        rewrite Ht in Hhd. cbn [andb] in Hhd.
        destruct (has_header fileHeaders h) eqn:E; [|discriminate Hhd].
        now apply has_header_In.
      * apply (proj1 IH Htl f' h Hin Hne).
    + intros H. apply app_nil. split.
      * destruct v as [| |h]; try reflexivity.
        destruct (truthy (Str h)) eqn:Et; [|reflexivity].
        apply truthy_Str in Et. destruct Et as [h' [[= <-] Hne]].
        assert (Hin : In h fileHeaders) by (apply (H f h); [now left | exact Hne]).
        apply has_header_In in Hin. rewrite Hin. reflexivity.
      * apply IH. intros f' h Hin Hne. apply (H f' h); [now right | exact Hne].
Qed.

Lemma get_list_to_map (entries : list (string * jsv)) (f h : string) :
  List.NoDup (map fst entries) ->
  get (list_to_map entries) f = Str h -> In (f, Str h) entries.
Proof.
  intros Hnd. unfold get.
  destruct (list_to_map entries !! f) as [v|] eqn:E; [|discriminate].
  cbn. intros ->. apply list_elem_of_In.
  apply elem_of_list_to_map in E; [exact E|]. now apply NoDup_ListNoDup.
Qed.

(** X17.  [processUpload] accepts a request that carries a file path and a
    mapping exactly when the file exists, the header row can be read, each
    of the five validated fields has a usable header, and every non-empty
    header named by the mapping is a column of the file.  An accepted
    mapping passes the check of [processFile], and on a row that has all the
    columns of the file every mapped field is read from a cell. *)
Theorem processUpload_accepts_iff (P : platform) (filePath : string)
    (entries : list (string * jsv)) (file_exists : bool)
    (headers : result (list string)) :
  filePath <> "" ->
  List.NoDup (map fst entries) ->
  let m : gmap string jsv := list_to_map entries in
  (processUpload (Str filePath) (Some entries) file_exists headers = Accepted
   <-> file_exists = true
       /\ (forall f, In f REQUIRED_KEYS -> truthy (get m f) = true)
       /\ exists fileHeaders,
            headers = Ok fileHeaders
            /\ forall f h, In (f, Str h) entries -> h <> "" -> In h fileHeaders)
  /\ (processUpload (Str filePath) (Some entries) file_exists headers = Accepted ->
      (forall rows, exists r, processFile P m rows = Ok r)
      /\ forall fileHeaders rawRecord f,
           headers = Ok fileHeaders ->
           (forall h, In h fileHeaders -> is_Some (rawRecord !! h)) ->
           truthy (get m f) = true ->
           exists s, extract m rawRecord f = Str s).
Proof.
  intros Hpath Hnd m.
  assert (Hp : truthy (Str filePath) = true) by (apply truthy_Str; eauto).
  pose proof (isValid_required m []) as Hreq.
  assert (Hiff : processUpload (Str filePath) (Some entries) file_exists headers = Accepted
   <-> file_exists = true
       /\ (forall f, In f REQUIRED_KEYS -> truthy (get m f) = true)
       /\ exists fileHeaders,
            headers = Ok fileHeaders
            /\ forall f h, In (f, Str h) entries -> h <> "" -> In h fileHeaders).
  { unfold processUpload. rewrite Hp. cbn [negb]. fold m.
    destruct file_exists; cbn [negb].
    2: { split; [discriminate | intros [H _]; discriminate H]. }
    destruct (isValid (validateRequiredFields m [])) eqn:Ev; cbn [negb].
    2: { split; [discriminate|]. intros [_ [Hall _]].
         apply Hreq in Hall. discriminate Hall. }
    destruct headers as [fileHeaders|e].
    2: { split; [discriminate|]. intros [_ [_ [hs [H _]]]]. discriminate H. }
    destruct (column_errors entries fileHeaders) as [|x l] eqn:Ec; cbn.
    - split; [|reflexivity]. intros _. split; [reflexivity|].
      split; [now apply Hreq|]. exists fileHeaders. split; [reflexivity|].
      now apply column_errors_nil.
    - split; [discriminate|]. intros [_ [_ [hs [[= <-] Hcols]]]].
      apply column_errors_nil in Hcols. rewrite Hcols in Ec. discriminate Ec. }
  split; [exact Hiff|].
  intros Hacc. apply Hiff in Hacc.
  destruct Hacc as [_ [Hall [fileHeaders [Hh Hcols]]]]. split.
  - intros rows. unfold processFile. rewrite (proj2 Hreq Hall). cbn [negb].
    destruct (run P (new_IPDRProcessor m) rows). eauto.
  - intros hs rawRecord f Hhs Hrow Ht. rewrite Hh in Hhs. injection Hhs as <-.
    apply truthy_Str in Ht. destruct Ht as [h [Hg Hne]].
    pose proof (get_list_to_map entries f h Hnd Hg) as Hin.
    destruct (Hrow h (Hcols f h Hin Hne)) as [s Hs].
    exists s. unfold extract. fold m. rewrite Hg.
    assert (Ht : truthy (Str h) = true) by (apply truthy_Str; eauto).
    rewrite Ht. unfold cell. now rewrite Hs.
Qed.

Lemma processUpload_accepts_iff_witness :
  processUpload (Str "uploads/f1") (Some sample_entries) true (Ok sample_file_headers)
  = Accepted.
Proof.
  assert (Hnd : List.NoDup (map fst sample_entries)).
  { cbn [map fst sample_entries].
    repeat (apply List.NoDup_cons; [cbn [In]; intros H;
      repeat (destruct H as [H|H]; [discriminate H|]); exact H|]).
    apply List.NoDup_nil. }
  destruct (processUpload_accepts_iff sample_platform "uploads/f1" sample_entries true
              (Ok sample_file_headers) ltac:(discriminate) Hnd) as [Hiff _].
  apply Hiff. split; [reflexivity|]. split.
  - intros f Hin. cbn in Hin.
    destruct Hin as [<-|[<-|[<-|[<-|[<-|[]]]]]]; vm_compute; reflexivity.
  - exists sample_file_headers. split; [reflexivity|].
    intros f h Hin _. cbn in Hin.
    repeat (destruct Hin as [[= <- <-]|Hin]; [cbn; tauto|]). contradiction Hin.
Defined.

(** ** Analysis without the collaborator *)

Lemma required_have_patterns (f : string) :
  In f REQUIRED_KEYS -> In f (map fst FIELD_PATTERNS).
Proof.
  intros Hin. cbn in Hin.
  destruct Hin as [<-|[<-|[<-|[<-|[<-|[]]]]]]; cbn; tauto.
Qed.

(** X18.  When the collaborator fails, the analysis of a header row is
    valid exactly when, for each of the five validated fields, the scan of
    the headers finds a non-empty best header; the mapping it suggests is
    the fallback mapping. *)
Theorem analysis_without_collaborator (e : exn) (headerList : list string) :
  fst (analyzeFileHeaders (Throw e) headerList) = createFallbackMapping headerList
  /\ (isValid (snd (analyzeFileHeaders (Throw e) headerList)) = true
      <-> forall f, In f REQUIRED_KEYS ->
            truthy (fst (best_header (patterns_of f) headerList Null 0%Q)) = true)
  /\ isValid (snd (analyzeFileHeaders (Throw e) [])) = false.
Proof.
  split; [reflexivity|]. split; [|reflexivity].
  unfold analyzeFileHeaders. cbn [snd getSuggestedMapping].
  rewrite isValid_required. split; intros H f Hin; specialize (H f Hin).
  - rewrite (fallback_choice headerList f (required_have_patterns f Hin)) in H.
    destruct (truthy (fst (best_header (patterns_of f) headerList Null 0%Q)));
      [reflexivity | discriminate H].
  - rewrite (fallback_choice headerList f (required_have_patterns f Hin)).
    now rewrite H.
Qed.

(** ** Clock and random source *)

Lemma processRecord_ambient (P : platform) (amb amb' : ambient)
    (m : gmap string jsv) (raw : gmap string string) :
  rejected P m raw = false ->
  _processRecord P amb (_extractMappedValues m raw) raw
  = _processRecord P amb' (_extractMappedValues m raw) raw.
Proof.
  intros Hacc.
  destruct (accepted_subscriber P m raw Hacc) as [a [Ha [Hane _]]].
  destruct (accepted_start P m raw Hacc) as [s [t [Hs [Hsne Ht]]]].
  assert (H1 : truthy (Str s) = true) by (apply truthy_Str; eauto).
  unfold _processRecord. rewrite Ha, Hs, H1.
  rewrite !(or_else_present a _ Hane). reflexivity.
Qed.

(** X19.  No row makes the per-row operation depend on the clock or on the
    random source: with other readings of [Date.now] and [Math.random] the
    new state and the output are the same, for single rows and for whole
    runs. *)
Theorem transform_ignores_ambient (P : platform) (st : IPDRProcessor) :
  (forall amb amb' rawRecord,
     _transform P amb st rawRecord = _transform P amb' st rawRecord)
  /\ (forall rows rows' : list (ambient * gmap string string),
        map snd rows = map snd rows' -> run P st rows = run P st rows').
Proof.
  assert (Hone : forall st amb amb' rawRecord,
            _transform P amb st rawRecord = _transform P amb' st rawRecord).
  { intros st0 amb amb' raw.
    destruct (rejected P (mapping st0) raw) eqn:E.
    - now rewrite !(transform_rejected _ _ _ _ E).
    - rewrite !(transform_accepted _ _ _ _ E).
      now rewrite (processRecord_ambient P amb amb' _ _ E). }
  split; [apply Hone|].
  intros rows. revert st.
  induction rows as [|[amb raw] rest IH]; intros st rows' Hrows.
  - destruct rows'; [reflexivity | discriminate Hrows].
  - destruct rows' as [|[amb' raw'] rest']; [discriminate Hrows|].
    cbn [map snd] in Hrows. injection Hrows as <- Hrest.
    rewrite !run_cons. rewrite (Hone st amb amb' raw).
    now rewrite (IH _ rest' Hrest).
Qed.

Lemma transform_ignores_ambient_witness :
  run sample_platform (new_IPDRProcessor sample_mapping)
      [(sample_ambient, good_row); (sample_ambient, no_dst_row)]
  = run sample_platform (new_IPDRProcessor sample_mapping)
      [({| Date_now := 0; Math_random_suffix := "" |}, good_row);
       (sample_ambient, no_dst_row)].
Proof.
  apply (proj2 (transform_ignores_ambient sample_platform
                  (new_IPDRProcessor sample_mapping))).
  reflexivity.
Defined.
